(** * Prompt styles: merge and extraction engine of [modules/styles.py]

    A shallow embedding of the style engine: [merge_prompts],
    [apply_styles_to_prompt], [extract_style_text_from_prompt],
    [extract_style_from_prompts] and
    [StyleDatabase.extract_styles_from_prompt].

    Python values are embedded as follows.
    - [str] is a sequence of code points; here a [list ascii], each [ascii]
      standing for one code point below 256.  Lengths and slices count code
      points, as Python's do.
    - A call that can raise returns a [result]: [Ok v] or [Raise e].
    - The [while True] loop of the extraction search is indexed by a number
      of passes; the theorems show how many passes are enough. *)

From Stdlib Require Import List Ascii ZArith Lia Bool Arith Permutation.
From Stdlib Require String.
Import ListNotations String.StringSyntax.
Open Scope string_scope.
Open Scope list_scope.

(** ** Python text *)

Definition str := list ascii.

Definition lit (s : String.string) : str := String.list_ascii_of_string s.
Coercion lit : String.string >-> str.

Fixpoint str_eqb (a b : str) : bool :=
  match a, b with
  | [], [] => true
  | x :: a', y :: b' => Ascii.eqb x y && str_eqb a' b'
  | _, _ => false
  end.

(** [c.isspace()] on the code points below 256: TAB..CR, FS..US, SPACE,
    NEL (0x85) and NBSP (0xA0). *)
Definition isspace (c : ascii) : bool :=
  let n := nat_of_ascii c in
  ((9 <=? n) && (n <=? 13)) || ((28 <=? n) && (n <=? 32))
  || (n =? 133) || (n =? 160).

Fixpoint lstrip (s : str) : str :=
  match s with
  | c :: s' => if isspace c then lstrip s' else s
  | [] => []
  end.

Definition rstrip (s : str) : str := rev (lstrip (rev s)).

(** [s.strip()] *)
Definition strip (s : str) : str := rstrip (lstrip s).

(** [s.startswith(pre)] *)
Fixpoint startswith (s pre : str) {struct pre} : bool :=
  match pre, s with
  | [], _ => true
  | p :: pre', c :: s' => Ascii.eqb c p && startswith s' pre'
  | _ :: _, [] => false
  end.

(** [s.endswith(suf)]: the last [len(suf)] code points of [s] are [suf]. *)
Definition endswith (s suf : str) : bool :=
  (length suf <=? length s) && str_eqb (skipn (length s - length suf) s) suf.

(** [s.find(sub)], with [None] for Python's [-1]. *)
Fixpoint find (s sub : str) : option nat :=
  if startswith s sub then Some 0
  else match s with
       | [] => None
       | _ :: s' => option_map S (find s' sub)
       end.

(** [sub in s] *)
Definition str_in (sub s : str) : bool :=
  match find s sub with Some _ => true | None => false end.

(** [s.replace(old, new)] for a non-empty [old]: the leftmost occurrence is
    replaced and the scan resumes behind it.  Each round consumes at least
    one code point, so [length s] rounds are enough. *)
Fixpoint replace_rounds (rounds : nat) (s old new : str) : str :=
  match rounds with
  | 0 => s
  | S r =>
      match find s old with
      | None => s
      | Some i =>
          firstn i s ++ new ++ replace_rounds r (skipn (i + length old) s) old new
      end
  end.

Definition replace (s old new : str) : str :=
  replace_rounds (length s) s old new.

(** [s.split(sep, maxsplit)] for a non-empty [sep] and [maxsplit >= 0]. *)
Fixpoint split (s sep : str) (maxsplit : nat) : list str :=
  match maxsplit with
  | 0 => [s]
  | S k =>
      match find s sep with
      | None => [s]
      | Some i => firstn i s :: split (skipn (i + length sep) s) sep k
      end
  end.

(** [sep.join(parts)] *)
Fixpoint join (sep : str) (parts : list str) : str :=
  match parts with
  | [] => []
  | p :: rest =>
      match rest with
      | [] => p
      | _ :: _ => p ++ sep ++ join sep rest
      end
  end.

(** Truth value of a [str]: the empty string is falsy. *)
Definition truthy (s : str) : bool :=
  match s with [] => false | _ :: _ => true end.

(** ** TemplateMerger *)

Definition placeholder : str := "{prompt}".
Definition comma_space : str := ", ".

(** [merge_prompts], lines 17-24. *)
Definition merge_prompts (style_prompt prompt : str) : str :=
  if str_in placeholder style_prompt then
    replace style_prompt placeholder prompt
  else
    let parts := filter truthy [strip prompt; strip style_prompt] in
    join comma_space parts.

(** [apply_styles_to_prompt], lines 27-31. *)
Definition apply_styles_to_prompt (prompt : str) (styles : list str) : str :=
  fold_left (fun prompt style => merge_prompts style prompt) styles prompt.

(** ** Python values, exceptions *)

(** The values that reach the calls of the extraction path. *)
Inductive pyval :=
| PNone
| PStr (s : str)
| PInt (n : Z)
| PPattern (source : str).

Inductive exn := AttributeError | TypeError | ValueError.

Inductive result (A : Type) :=
| Ok (a : A)
| Raise (e : exn).
Arguments Ok {A} a.
Arguments Raise {A} e.

Definition bind {A B} (c : result A) (k : A -> result B) : result B :=
  match c with
  | Ok a => k a
  | Raise e => Raise e
  end.

Notation "x <- c ;; k" := (bind c (fun x => k))
  (at level 61, c at next level, right associativity).
Notation "' pat <- c ;; k" := (bind c (fun pat => k))
  (at level 61, pat pattern, c at next level, right associativity).

(** A set display with three members yields them in an order fixed by their
    hashes; [str] hashes are salted per process, so any of the six orders
    can occur. *)
Inductive order3 := O012 | O021 | O102 | O120 | O201 | O210.

Definition iterate3 {A} (o : order3) (a b c : A) : A * A * A :=
  match o with
  | O012 => (a, b, c)
  | O021 => (a, c, b)
  | O102 => (b, a, c)
  | O120 => (b, c, a)
  | O201 => (c, a, b)
  | O210 => (c, b, a)
  end.

(** ** TextNormalizer *)

(** [re_list], lines 35-39: three set displays [{label, pattern, replacement}],
    members in the order written. *)
Definition re_list : list (pyval * pyval * pyval) :=
  [ (PStr "a_before_vowel", PPattern "([Aa])\s+([AEIOUaeiou])", PStr "$1n $2");
    (PStr "multiple commas", PPattern "(,+\s+)+,?", PStr ", ");
    (PStr "multiple spaces", PPattern "\s{2,}", PStr " ") ].

(** ** Style records *)

Module PromptStyle.
(** [PromptStyle], lines 10-14.  A divider record carries [None] templates;
    a CSV row that is short of columns does too. *)
Record t := make {
  name : str;
  prompt : option str;
  negative_prompt : option str;
  path : option str
}.

Definition opt_eqb (a b : option str) : bool :=
  match a, b with
  | None, None => true
  | Some x, Some y => str_eqb x y
  | _, _ => false
  end.

(** Equality of named tuples: field by field. *)
Definition eqb (a b : t) : bool :=
  str_eqb (name a) (name b) && opt_eqb (prompt a) (prompt b)
  && opt_eqb (negative_prompt a) (negative_prompt b)
  && opt_eqb (path a) (path b).
End PromptStyle.

(** [not x] for a template field: [None] and the empty string are falsy. *)
Definition falsy (x : option str) : bool :=
  match x with
  | None => true
  | Some s => negb (truthy s)
  end.

Definition of_field (x : option str) : pyval :=
  match x with
  | None => PNone
  | Some s => PStr s
  end.

(** [self.no_style], line 87. *)
Definition no_style : PromptStyle.t :=
  PromptStyle.make "None" (Some (lit "")) (Some (lit "")) None.

(** The divider record of [reload], lines 112-114. *)
Definition divider (file_upper : str) : PromptStyle.t :=
  PromptStyle.make file_upper None None (Some (lit "divider")).

(** ** StyleExtractor *)

(** [s[a:b]] for [0 <= a] and [0 <= b <= len(s)]. *)
Definition slice (s : str) (a b : nat) : str := firstn (b - a) (skipn a s).

(** Lines 49-63 of [extract_style_text_from_prompt]: the structural match of
    a template against a candidate. *)
Definition match_style_text (style_text : option str) (prompt : str)
  : result (bool * str) :=
  match style_text with
  | None => Raise TypeError
  | Some style_text =>
      if str_in placeholder style_text then
        match split style_text placeholder 2 with
        | [left_; right_] =>
            if startswith prompt left_ && endswith prompt right_ then
              Ok (true,
                  slice prompt (length left_) (length prompt - length right_))
            else Ok (false, prompt)
        | _ => Raise ValueError
        end
      else if endswith prompt style_text then
        let prompt := firstn (length prompt - length style_text) prompt in
        let prompt :=
          if endswith prompt comma_space then firstn (length prompt - 2) prompt
          else prompt in
        Ok (true, prompt)
      else Ok (false, prompt)
  end.

Section PyRuntime.
(** Iteration order of a set display with the given members. *)
Variable set_order : pyval -> pyval -> pyval -> order3.
(** [Pattern.sub(repl, string, count)] of the [re] library on a pattern
    source, two strings and an integer. *)
Variable re_sub : str -> str -> str -> Z -> str.

(** The call [recv.sub(repl, string, count)].  Only a compiled pattern has
    the method; it takes an integer [count]. *)
Definition call_sub (recv repl string count : pyval) : result pyval :=
  match recv with
  | PPattern source =>
      match count with
      | PInt n =>
          match repl, string with
          | PStr r, PStr s => Ok (PStr (re_sub source r s n))
          | _, _ => Raise TypeError
          end
      | _ => Raise TypeError
      end
  | _ => Raise AttributeError
  end.

(** Lines 45-46: [for _, regex, replace in re_list:
    text = regex.sub(" ", replace, text)]. *)
Fixpoint tidy (entries : list (pyval * pyval * pyval)) (text : pyval)
  : result pyval :=
  match entries with
  | [] => Ok text
  | (a, b, c) :: rest =>
      let '(_, regex, replace) := iterate3 (set_order a b c) a b c in
      text <- call_sub regex (PStr " ") replace text ;;
      tidy rest text
  end.

(** [extract_style_text_from_prompt], lines 42-63.  The tidied text is
    stored into the dictionary returned by [locals()], which does not
    rebind the function's variables: the match below sees the arguments
    as they were passed. *)
Definition extract_style_text_from_prompt (style_text : option str)
  (prompt : str) : result (bool * str) :=
  _ <- tidy re_list (of_field style_text) ;;
  _ <- tidy re_list (PStr prompt) ;;
  match_style_text style_text prompt.
End PyRuntime.

(** ** StyleSet: the style dictionary *)

(** [self.styles]: a dictionary from names to records, in insertion order. *)
Definition style_dict := list (str * PromptStyle.t).

(** [d[k] = v]: an existing key keeps its position, a new key goes last. *)
Fixpoint dict_set (d : style_dict) (k : str) (v : PromptStyle.t) : style_dict :=
  match d with
  | [] => [(k, v)]
  | (k', v') :: d' =>
      if str_eqb k' k then (k, v) :: d' else (k', v') :: dict_set d' k v
  end.

(** [list(d.values())] *)
Definition values (d : style_dict) : list PromptStyle.t := map snd d.

(** Lines 112 and 133 store every record under its own name. *)
Definition add_style (d : style_dict) (style : PromptStyle.t) : style_dict :=
  dict_set d (PromptStyle.name style) style.

(** Keys are unique, and every record sits under its own name. *)
Definition dict_wf (d : style_dict) : Prop :=
  NoDup (map fst d) /\ Forall (fun kv => PromptStyle.name (snd kv) = fst kv) d.

(** [l.remove(x)]: drops the first member equal to [x]; [ValueError] when
    there is none. *)
Fixpoint list_remove (l : list PromptStyle.t) (x : PromptStyle.t)
  : result (list PromptStyle.t) :=
  match l with
  | [] => Raise ValueError
  | y :: l' =>
      if PromptStyle.eqb y x then Ok l'
      else l'' <- list_remove l' x ;; Ok (y :: l'')
  end.

(** [not style.prompt and not style.negative_prompt], line 67. *)
Definition both_empty (style : PromptStyle.t) : bool :=
  falsy (PromptStyle.prompt style) && falsy (PromptStyle.negative_prompt style).

(** ** StyleSet: extraction search, over a text-level extractor *)

Section Search.
(** The text-level extractor called on each template. *)
Variable extract_text : option str -> str -> result (bool * str).

(** Lines 66-82. *)
Definition extract_style_from_prompts_via (style : PromptStyle.t)
  (prompt negative_prompt : str) : result (bool * str * str) :=
  if both_empty style then Ok (false, prompt, negative_prompt)
  else
    '(match_positive, extracted_positive) <-
       extract_text (PromptStyle.prompt style) prompt ;;
    if negb match_positive then Ok (false, prompt, negative_prompt)
    else
      '(match_negative, extracted_negative) <-
         extract_text (PromptStyle.negative_prompt style) negative_prompt ;;
      if negb match_negative then Ok (false, prompt, negative_prompt)
      else Ok (true, extracted_positive, extracted_negative).

(** The [for] loop of lines 199-207: the first style that matches, with
    the texts it leaves. *)
Fixpoint first_match_via (applicable_styles : list PromptStyle.t)
  (prompt negative_prompt : str)
  : result (option (PromptStyle.t * str * str)) :=
  match applicable_styles with
  | [] => Ok None
  | style :: rest =>
      '(is_match, new_prompt, new_neg_prompt) <-
         extract_style_from_prompts_via style prompt negative_prompt ;;
      if (is_match : bool) then Ok (Some (style, new_prompt, new_neg_prompt))
      else first_match_via rest prompt negative_prompt
  end.

(** The [while True] loop of lines 196-213, run for at most [passes]
    passes; [None] when the loop is still running after them. *)
Fixpoint peel_via (passes : nat) (applicable_styles : list PromptStyle.t)
  (extracted : list str) (prompt negative_prompt : str)
  : option (result (list str * str * str)) :=
  match passes with
  | 0 => None
  | S passes' =>
      match first_match_via applicable_styles prompt negative_prompt with
      | Raise e => Some (Raise e)
      | Ok None => Some (Ok (rev extracted, prompt, negative_prompt))
      | Ok (Some (found_style, new_prompt, new_neg_prompt)) =>
          match list_remove applicable_styles found_style with
          | Raise e => Some (Raise e)
          | Ok applicable_styles =>
              peel_via passes' applicable_styles
                (extracted ++ [PromptStyle.name found_style])
                new_prompt new_neg_prompt
          end
      end
  end.

(** Lines 191-215, with the pass budget the theorems below justify. *)
Definition extract_styles_via (styles : style_dict)
  (prompt negative_prompt : str) : option (result (list str * str * str)) :=
  peel_via (S (length styles)) (values styles) [] prompt negative_prompt.
End Search.

(** ** StyleSet: extraction search of the program *)

Section Program.
Variable set_order : pyval -> pyval -> pyval -> order3.
Variable re_sub : str -> str -> str -> Z -> str.

(** [extract_style_from_prompts], lines 66-82. *)
Definition extract_style_from_prompts :=
  extract_style_from_prompts_via
    (extract_style_text_from_prompt set_order re_sub).

(** [StyleDatabase.extract_styles_from_prompt], lines 191-215. *)
Definition extract_styles_from_prompt (styles : style_dict) :=
  extract_styles_via (extract_style_text_from_prompt set_order re_sub) styles.
End Program.

(** A run-time to evaluate examples with: sets iterate in the order
    written, and the regex engine is the identity on the text. *)
Definition order_written (_ _ _ : pyval) : order3 := O012.
Definition order_pattern_last (_ _ _ : pyval) : order3 := O021.
Definition sub_none (_ _ s : str) (_ : Z) : str := s.

(** ** Example style sets *)

Definition style_S1 : PromptStyle.t :=
  PromptStyle.make "S1" (Some (lit "masterpiece")) (Some (lit "blurry"))
    (Some (lit "styles.csv")).
Definition style_S2 : PromptStyle.t :=
  PromptStyle.make "S2" (Some (lit "highres")) (Some (lit "lowres"))
    (Some (lit "styles.csv")).
Definition style_S3 : PromptStyle.t :=
  PromptStyle.make "S3" (Some (lit "{prompt}, 4k"))
    (Some (lit "{prompt}, jpeg artifacts")) (Some (lit "styles.csv")).

Definition three_styles : style_dict :=
  add_style (add_style (add_style [] style_S1) style_S2) style_S3.

(** A row with empty templates and a divider record. *)
Definition style_blank : PromptStyle.t :=
  PromptStyle.make "blank" (Some (lit "")) (Some (lit ""))
    (Some (lit "styles.csv")).

Definition blank_styles : style_dict :=
  add_style (add_style [] (divider "STYLES.CSV")) style_blank.

(** ** Notions used to state the properties *)

(** [sub] occurs in [s] at offset [i]. *)
Definition occurs_at (sub s : str) (i : nat) : Prop :=
  exists pre suf, s = pre ++ sub ++ suf /\ length pre = i.

(** [i] is the offset of the leftmost occurrence of [sub] in [s]. *)
Definition first_at (sub s : str) (i : nat) : Prop :=
  occurs_at sub s i /\ forall j, occurs_at sub s j -> i <= j.

Definition absent (sub s : str) : Prop := forall j, ~ occurs_at sub s j.

(** [replaced_all old new s r]: [r] is [s] with every occurrence of [old],
    taken leftmost first and without overlap, replaced by [new]; the text
    between occurrences is kept as it is. *)
Inductive replaced_all (old new : str) : str -> str -> Prop :=
| replaced_none s :
    absent old s -> replaced_all old new s s
| replaced_next pre rest r :
    first_at old (pre ++ old ++ rest) (length pre) ->
    replaced_all old new rest r ->
    replaced_all old new (pre ++ old ++ rest) (pre ++ new ++ r).

(** The concatenation rule in the words of the specification: the non-empty
    ones of two texts joined with [", "]. *)
Definition joined_nonempty (p t : str) : str :=
  match p, t with
  | [], [] => []
  | _ :: _, [] => p
  | [], _ :: _ => t
  | _ :: _, _ :: _ => p ++ comma_space ++ t
  end.

(** The set display yields its second member, the compiled pattern, in
    second place: [regex] is then bound to it. *)
Definition binds_pattern (o : order3) : bool :=
  match o with
  | O012 | O210 => true
  | _ => false
  end.

(** The exception of the first call of line 46. *)
Definition first_call_exn (set_order : pyval -> pyval -> pyval -> order3)
  : exn :=
  match re_list with
  | (a, b, c) :: _ =>
      if binds_pattern (set_order a b c) then TypeError else AttributeError
  | [] => ValueError
  end.

(** The text has no white space at either end. *)
Definition trimmed (s : str) : Prop := strip s = s.

(** ** Further text operations *)

(** [s.split(sep)] for a non-empty [sep], without bound on the splits: a
    text of [n] code points holds at most [n] separators. *)
Definition split_all (s sep : str) : list str := split s sep (length s).

(** [c.lower()] on the code points below 256: A..Z and the accented capitals
    0xC0..0xDE, the multiplication sign 0xD7 apart. *)
Definition lower_char (c : ascii) : ascii :=
  let n := nat_of_ascii c in
  if ((65 <=? n) && (n <=? 90))
     || ((192 <=? n) && (n <=? 222) && negb (n =? 215))
  then ascii_of_nat (n + 32) else c.

(** [s.lower()] *)
Definition lower (s : str) : str := map lower_char s.

Definition char_in (c : ascii) (chars : str) : bool :=
  existsb (Ascii.eqb c) chars.

Fixpoint lstrip_chars (s chars : str) : str :=
  match s with
  | c :: s' => if char_in c chars then lstrip_chars s' chars else s
  | [] => []
  end.

(** [s.strip(chars)] *)
Definition strip_chars (s chars : str) : str :=
  rev (lstrip_chars (rev (lstrip_chars s chars)) chars).

(** ** StyleDatabase: lookup, loading and saving *)

(** A row as [csv.DictReader] yields it: the field names of the header with
    the values of the row, [None] for a value the row is short of. *)
Definition csv_row := list (str * option str).

(** The exceptions of the loading path. *)
Inductive load_exn :=
| KeyError (key : str)
| NoneHasNoAttribute
| ReadError.

(** What [csv.DictWriter.writerow] is handed at lines 187-189: the fields
    [name], [prompt], [negative_prompt]. *)
Definition csv_record := (str * option str * option str)%type.

Module StyleDatabase.

(** [d.get(k)] *)
Fixpoint dict_get (d : style_dict) (k : str) : option PromptStyle.t :=
  match d with
  | [] => None
  | (k', v) :: d' => if str_eqb k' k then Some v else dict_get d' k
  end.

(** [self.styles.get(x, self.no_style)] *)
Definition get (d : style_dict) (x : str) : PromptStyle.t :=
  match dict_get d x with
  | Some style => style
  | None => no_style
  end.

(** [get_style_prompts], lines 137-138. *)
Definition get_style_prompts (d : style_dict) (styles : list str)
  : list (option str) :=
  map (fun x => PromptStyle.prompt (get d x)) styles.

(** [get_negative_style_prompts], lines 140-141. *)
Definition get_negative_style_prompts (d : style_dict) (styles : list str)
  : list (option str) :=
  map (fun x => PromptStyle.negative_prompt (get d x)) styles.

(** A call of [merge_prompts] with a template field: [None] fails the test
    ["{prompt}" in style_prompt] of line 18. *)
Definition merge_prompts_call (style_prompt : option str) (prompt : str)
  : result str :=
  match style_prompt with
  | None => Raise TypeError
  | Some style_prompt => Ok (merge_prompts style_prompt prompt)
  end.

(** The loop of [apply_styles_to_prompt], lines 27-31, over template
    fields. *)
Fixpoint apply_styles_call (prompt : str) (styles : list (option str))
  : result str :=
  match styles with
  | [] => Ok prompt
  | style :: rest =>
      prompt <- merge_prompts_call style prompt ;;
      apply_styles_call prompt rest
  end.

(** [StyleDatabase.apply_styles_to_prompt], lines 143-146. *)
Definition apply_styles_to_prompt (d : style_dict) (prompt : str)
  (styles : list str) : result str :=
  apply_styles_call prompt (get_style_prompts d styles).

(** [StyleDatabase.apply_negative_styles_to_prompt], lines 148-151. *)
Definition apply_negative_styles_to_prompt (d : style_dict) (prompt : str)
  (styles : list str) : result str :=
  apply_styles_call prompt (get_negative_style_prompts d styles).

(** Lines 92-94 of [__init__]: the default file name, from the file part of
    the path. *)
Definition default_file (file : str) : str :=
  let default_file := hd [] (split_all file "*") ++ lit ".csv" in
  if str_eqb default_file ".csv" then lit "styles.csv" else default_file.

(** [row[k]]: [None] when the row has no such field. *)
Fixpoint row_get (row : csv_row) (k : str) : option (option str) :=
  match row with
  | [] => None
  | (k', v) :: row' => if str_eqb k' k then Some v else row_get row' k
  end.

(** The body of the loop of [load_from_csv], lines 125-135: the dictionary
    after the row, and the exception the row raised, if any. *)
Definition load_row (path : str) (d : style_dict) (row : csv_row)
  : style_dict * option load_exn :=
  match row with
  | [] => (d, None)
  | _ :: _ =>
      match row_get row "name" with
      | None => (d, Some (KeyError "name"))
      | Some None => (d, Some NoneHasNoAttribute)
      | Some (Some name) =>
          if startswith name "#" then (d, None)
          else
            let prompt :=
              match row_get row "prompt" with
              | Some v => Some v
              | None => row_get row "text"
              end in
            match prompt with
            | None => (d, Some (KeyError "text"))
            | Some prompt =>
                let negative_prompt :=
                  match row_get row "negative_prompt" with
                  | Some v => v
                  | None => Some (lit "")
                  end in
                (dict_set d name
                   (PromptStyle.make name prompt negative_prompt (Some path)),
                 None)
            end
      end
  end.

(** The loop of [load_from_csv] over the rows of the reader: it stops at
    the first row that raises, with the rows before it stored. *)
Fixpoint load_rows (path : str) (d : style_dict) (rows : list csv_row)
  : style_dict * option load_exn :=
  match rows with
  | [] => (d, None)
  | row :: rest =>
      match load_row path d row with
      | (d', None) => load_rows path d' rest
      | (d', Some e) => (d', Some e)
      end
  end.

(** [style._replace(path=p)] *)
Definition replace_path (style : PromptStyle.t) (p : str) : PromptStyle.t :=
  PromptStyle.make (PromptStyle.name style) (PromptStyle.prompt style)
    (PromptStyle.negative_prompt style) (Some p).

(** Lines 158-160 of [save_styles]: records without a path get the default
    path, each stored under its name. *)
Definition fix_paths (default_path : str) (d : style_dict) : style_dict :=
  fold_left
    (fun d style =>
       if falsy (PromptStyle.path style)
       then dict_set d (PromptStyle.name style) (replace_path style default_path)
       else d)
    (values d) d.

(** The paths that are truthy. *)
Definition truthy_paths (d : style_dict) : list str :=
  flat_map (fun style =>
              match PromptStyle.path style with
              | Some p => if truthy p then [p] else []
              | None => []
              end) (values d).

(** Lines 163-167: the set of paths, each once; the order stands for the
    order in which the set yields them. *)
Definition style_paths (default_path : str) (d : style_dict) : list str :=
  nodup (list_eq_dec ascii_dec) (default_path :: truthy_paths d).

Definition record_of (style : PromptStyle.t) : csv_record :=
  (PromptStyle.name style, PromptStyle.prompt style,
   PromptStyle.negative_prompt style).

Section Files.
(** [os.path.split(path)[1]] *)
Variable path_tail : str -> str.
(** The rows [csv.DictReader] yields for the file at a path, and whether
    opening, decoding or parsing the file raised behind them. *)
Variable read_csv : str -> list csv_row * bool.
(** [os.path.split], [os.path.join], [os.listdir] ([None] when it raises),
    [fnmatch.fnmatch], [os.path.exists] and [str.upper]. *)
Variable path_split : str -> str * str.
Variable path_join : str -> str -> str.
Variable listdir : str -> option (list str).
Variable fnmatch : str -> str -> bool.
Variable path_exists : str -> bool.
Variable upper : str -> str.

(** [load_from_csv], lines 122-135. *)
Definition load_from_csv (d : style_dict) (path : str)
  : style_dict * option load_exn :=
  let '(rows, failed) := read_csv path in
  match load_rows path d rows with
  | (d', None) => (d', if failed then Some ReadError else None)
  | (d', Some e) => (d', Some e)
  end.

(** The loop of lines 110-115 over the directory entries. *)
Fixpoint load_matching (d : style_dict) (path fileglob : str)
  (files : list str) : style_dict * option load_exn :=
  match files with
  | [] => (d, None)
  | file :: rest =>
      if fnmatch file fileglob then
        let d := dict_set d (upper file) (divider (upper file)) in
        match load_from_csv d (path_join path file) with
        | (d', None) => load_matching d' path fileglob rest
        | (d', Some e) => (d', Some e)
        end
      else load_matching d path fileglob rest
  end.

(** [reload], lines 101-120: the dictionary is cleared first. *)
Definition reload (self_path : str) : style_dict * option load_exn :=
  let '(path, filename) := path_split self_path in
  if str_in "*" filename then
    let fileglob := hd [] (split_all filename "*") ++ lit "*.csv" in
    match listdir path with
    | None => ([], Some ReadError)
    | Some files => load_matching [] path fileglob files
    end
  else if negb (path_exists self_path) then ([], None)
  else load_from_csv [] self_path.

(** Line 169. *)
Definition csv_names (default_path : str) (d : style_dict) : list str :=
  map (fun path => lower (path_tail path)) (style_paths default_path d).

(** Lines 180-189: the rows written to the file at [style_path]. *)
Definition written_rows (names : list str) (d : style_dict)
  (style_path : str) : list csv_record :=
  map record_of
    (filter
       (fun style =>
          negb (str_eqb (lower style_path) "divider")
          && negb (existsb
                     (str_eqb (strip_chars (lower (PromptStyle.name style)) "# "))
                     names))
       (filter
          (fun s => PromptStyle.opt_eqb (PromptStyle.path s) (Some style_path))
          (values d))).

(** [save_styles], lines 153-189: the dictionary it leaves, and the rows of
    every file it writes. *)
Definition save_styles (default_path : str) (d : style_dict)
  : style_dict * list (str * list csv_record) :=
  let d := fix_paths default_path d in
  let names := csv_names default_path d in
  (d, map (fun style_path => (style_path, written_rows names d style_path))
        (style_paths default_path d)).
End Files.
End StyleDatabase.

(** What a row adds to an empty dictionary: nothing, or one record under
    its name. *)
Definition stored_by (path : str) (row : csv_row) : style_dict :=
  fst (StyleDatabase.load_row path [] row).

(** ** Example rows and files *)

Definition row_cat : csv_row :=
  [(lit "name", Some (lit "cat")); (lit "prompt", Some (lit "a cat"));
   (lit "negative_prompt", Some (lit "dog"))].

(** A row of the old layout, with a [text] column. *)
Definition row_cat_legacy : csv_row :=
  [(lit "name", Some (lit "cat")); (lit "text", Some (lit "kitten"))].

Definition row_comment : csv_row :=
  [(lit "name", Some (lit "# note")); (lit "prompt", Some (lit "x"));
   (lit "negative_prompt", Some (lit ""))].

(** A row that stops behind the name. *)
Definition row_short : csv_row :=
  [(lit "name", Some (lit "bare")); (lit "prompt", None);
   (lit "negative_prompt", None)].

Definition no_tail (path : str) : str := path.

(** * Properties *)

(** ** Text operations *)

Lemma str_eqb_eq (a b : str) : str_eqb a b = true <-> a = b.
Proof.
  revert b; induction a as [|x a IH]; intros [|y b]; simpl;
    try (split; [discriminate | discriminate]); try tauto.
  rewrite andb_true_iff, Ascii.eqb_eq, IH.
  split; [intros [-> ->]; reflexivity | intros H; inversion H; auto].
Qed.

Lemma str_eqb_refl (a : str) : str_eqb a a = true.
Proof. apply str_eqb_eq; reflexivity. Qed.

Lemma startswith_iff (s pre : str) :
  startswith s pre = true <-> exists suf, s = pre ++ suf.
Proof.
  revert s; induction pre as [|p pre IH]; intros s; simpl.
  - split; [exists s; reflexivity | reflexivity].
  - destruct s as [|c s].
    + split; [discriminate | intros [suf H]; discriminate].
    + rewrite andb_true_iff, Ascii.eqb_eq, IH.
      split.
      * intros [-> [suf ->]]; exists suf; reflexivity.
      * intros [suf H]; inversion H; subst; split; [reflexivity | eauto].
Qed.

Lemma startswith_app (pre suf : str) : startswith (pre ++ suf) pre = true.
Proof. apply startswith_iff; eauto. Qed.

Lemma skipn_length_app (pre suf : str) :
  skipn (length (pre ++ suf) - length suf) (pre ++ suf) = suf.
Proof.
  rewrite length_app, Nat.add_sub, skipn_app, Nat.sub_diag, skipn_all.
  reflexivity.
Qed.

Lemma firstn_length_app (pre suf : str) :
  firstn (length (pre ++ suf) - length suf) (pre ++ suf) = pre.
Proof.
  rewrite length_app, Nat.add_sub, firstn_app, Nat.sub_diag, firstn_all.
  simpl; apply app_nil_r.
Qed.

Lemma endswith_iff (s suf : str) :
  endswith s suf = true <-> exists pre, s = pre ++ suf.
Proof.
  unfold endswith; rewrite andb_true_iff, Nat.leb_le, str_eqb_eq.
  split.
  - intros [_ H]. exists (firstn (length s - length suf) s).
    transitivity (firstn (length s - length suf) s
                  ++ skipn (length s - length suf) s).
    + symmetry; apply firstn_skipn.
    + rewrite H; reflexivity.
  - intros [pre ->]. split.
    + rewrite length_app; lia.
    + apply skipn_length_app.
Qed.

Lemma endswith_app (pre suf : str) : endswith (pre ++ suf) suf = true.
Proof. apply endswith_iff; eauto. Qed.

Lemma occurs_at_cons (sub s : str) (c : ascii) (j : nat) :
  occurs_at sub (c :: s) (S j) <-> occurs_at sub s j.
Proof.
  split.
  - intros (pre & suf & H & L). destruct pre as [|x pre]; [discriminate|].
    inversion H; subst. exists pre, suf; split; [reflexivity | simpl in L; lia].
  - intros (pre & suf & -> & L). exists (c :: pre), suf; simpl; auto.
Qed.

Lemma occurs_at_0 (sub s : str) :
  occurs_at sub s 0 <-> startswith s sub = true.
Proof.
  rewrite startswith_iff; split.
  - intros (pre & suf & -> & L). destruct pre; [|discriminate].
    exists suf; reflexivity.
  - intros [suf ->]. exists [], suf; auto.
Qed.

Lemma find_Some (s sub : str) (i : nat) :
  find s sub = Some i -> first_at sub s i.
Proof.
  revert i; induction s as [|c s IH]; intros i; simpl.
  - destruct (startswith [] sub) eqn:E; [|discriminate].
    intros [= <-]. split; [apply occurs_at_0; exact E | intros; lia].
  - destruct (startswith (c :: s) sub) eqn:E.
    + intros [= <-]. split; [apply occurs_at_0; exact E | intros; lia].
    + destruct (find s sub) as [k|] eqn:F; [|discriminate].
      intros [= <-]. destruct (IH k eq_refl) as [Hk Hmin]. split.
      * apply occurs_at_cons; exact Hk.
      * intros [|j] Hj.
        -- apply occurs_at_0 in Hj; congruence.
        -- apply occurs_at_cons in Hj. apply Hmin in Hj. lia.
Qed.

Lemma find_None (s sub : str) : find s sub = None -> absent sub s.
Proof.
  induction s as [|c s IH]; simpl.
  - destruct (startswith [] sub) eqn:E; [discriminate|].
    intros _ j (pre & suf & H & _).
    destruct pre; [|discriminate]. destruct sub; [discriminate | discriminate].
  - destruct (startswith (c :: s) sub) eqn:E; [discriminate|].
    destruct (find s sub) eqn:F; [discriminate|].
    intros _ [|j] Hj.
    + apply occurs_at_0 in Hj; congruence.
    + apply occurs_at_cons in Hj. exact (IH eq_refl j Hj).
Qed.

Lemma str_in_true (sub s : str) :
  str_in sub s = true <-> exists i, occurs_at sub s i.
Proof.
  unfold str_in; destruct (find s sub) as [i|] eqn:F.
  - split; [intros _; exists i; apply (find_Some _ _ _ F) | reflexivity].
  - split; [discriminate | intros [i Hi]; destruct (find_None _ _ F i Hi)].
Qed.

Lemma str_in_false (sub s : str) : str_in sub s = false <-> absent sub s.
Proof.
  split.
  - intros H j Hj. assert (str_in sub s = true) by (apply str_in_true; eauto).
    congruence.
  - intros H. destruct (str_in sub s) eqn:E; [|reflexivity].
    apply str_in_true in E as [i Hi]. destruct (H i Hi).
Qed.

Lemma firstn_prefix (pre rest : str) : firstn (length pre) (pre ++ rest) = pre.
Proof.
  rewrite firstn_app, Nat.sub_diag, firstn_all. simpl; apply app_nil_r.
Qed.

Lemma skipn_prefix (pre sub rest : str) :
  skipn (length pre + length sub) (pre ++ sub ++ rest) = rest.
Proof.
  rewrite app_assoc, <- length_app, skipn_app, Nat.sub_diag, skipn_all.
  reflexivity.
Qed.

Lemma absent_nil (sub : str) : sub <> [] -> absent sub [].
Proof.
  intros Hsub j (pre & suf & H & _).
  destruct pre; [|discriminate]. destruct sub; [congruence | discriminate].
Qed.

(** ** TemplateMerger *)

Lemma replace_rounds_spec (old new : str) (rounds : nat) :
  old <> [] ->
  forall s, length s <= rounds ->
  replaced_all old new s (replace_rounds rounds s old new).
Proof.
  intros Hold; induction rounds as [|r IH]; intros s Hlen; simpl.
  - destruct s; [|simpl in Hlen; lia].
    apply replaced_none, absent_nil, Hold.
  - destruct (find s old) as [i|] eqn:F.
    + pose proof (find_Some _ _ _ F) as Hfirst.
      destruct Hfirst as [(pre & rest & -> & <-) Hmin].
      rewrite firstn_prefix, skipn_prefix.
      apply replaced_next.
      * split; [exists pre, rest; auto | exact Hmin].
      * apply IH. rewrite !length_app in Hlen.
        destruct old; [congruence | simpl in Hlen; lia].
    + apply replaced_none, find_None, F.
Qed.

Lemma replace_spec (s old new : str) :
  old <> [] -> replaced_all old new s (replace s old new).
Proof. intros H; apply replace_rounds_spec; auto. Qed.

Lemma first_at_unique (sub s : str) (i j : nat) :
  first_at sub s i -> first_at sub s j -> i = j.
Proof.
  intros [Hi Mi] [Hj Mj]. apply Mi in Hj. apply Mj in Hi. lia.
Qed.

Lemma app_same_length (a b c d : str) :
  a ++ b = c ++ d -> length a = length c -> a = c /\ b = d.
Proof.
  revert c; induction a as [|x a IH]; intros [|y c] H L; simpl in *;
    try discriminate; [auto|].
  inversion H; subst. destruct (IH c) as [-> ->]; auto.
Qed.

(** [replaced_all] determines its result. *)
Lemma replaced_all_functional (old new s r1 r2 : str) :
  replaced_all old new s r1 -> replaced_all old new s r2 -> r1 = r2.
Proof.
  intros H1; revert r2; induction H1 as [s Habs | pre rest r Hfirst Hrest IH];
    intros r2 H2.
  - inversion H2 as [s' Habs' | pre' rest' r' Hfirst' Hrest']; subst; auto.
    destruct (Habs (length pre')). exists pre', rest'; auto.
  - remember (pre ++ old ++ rest) as s eqn:Es.
    destruct H2 as [s Habs | pre' rest' r' Hfirst' Hrest'].
    + subst s. destruct (Habs (length pre)). exists pre, rest; auto.
    + pose proof (first_at_unique _ _ _ _ Hfirst Hfirst') as L.
      destruct (app_same_length _ _ _ _ Es) as [-> E2]; auto.
      apply app_inv_head in E2; subst rest'.
      rewrite (IH _ Hrest'); reflexivity.
Qed.

Lemma placeholder_nonempty : placeholder <> [].
Proof. discriminate. Qed.

Lemma join_nonempty_parts (p t : str) :
  join comma_space (filter truthy [p; t]) = joined_nonempty p t.
Proof. destruct p, t; reflexivity. Qed.

Lemma merge_without_placeholder (T P : str) :
  str_in placeholder T = false ->
  merge_prompts T P = joined_nonempty (strip P) (strip T).
Proof. unfold merge_prompts; intros ->. apply join_nonempty_parts. Qed.

Lemma merge_with_placeholder (T P : str) :
  str_in placeholder T = true ->
  merge_prompts T P = replace T placeholder P.
Proof. unfold merge_prompts; intros ->. reflexivity. Qed.

(** C5.  [merge_prompts T P]: when [T] contains the placeholder, the result
    is [T] with every occurrence of the placeholder replaced by [P] as it
    is; otherwise it is the non-empty ones of [P.strip()] and [T.strip()],
    in that order, joined with [", "] (one of them alone when the other is
    empty, the empty string when both are). *)
Theorem merge_prompts_spec (T P : str) :
  (str_in placeholder T = true ->
   merge_prompts T P = replace T placeholder P
   /\ replaced_all placeholder P T (merge_prompts T P))
  /\ (str_in placeholder T = false ->
      merge_prompts T P = joined_nonempty (strip P) (strip T)).
Proof.
  split; intros H.
  - rewrite (merge_with_placeholder _ _ H).
    split; [reflexivity | apply replace_spec, placeholder_nonempty].
  - apply merge_without_placeholder, H.
Qed.

Lemma merge_prompts_spec_witness :
  (str_in placeholder "{prompt}, best quality" = true
   /\ merge_prompts "{prompt}, best quality" "a cat" = "a cat, best quality")
  /\ (str_in placeholder "masterpiece" = false
      /\ merge_prompts "masterpiece" " dog " = "dog, masterpiece").
Proof.
  split; (split; [reflexivity|]).
  - destruct (merge_prompts_spec "{prompt}, best quality" "a cat") as [H _].
    destruct (H eq_refl) as [E _]. rewrite E. reflexivity.
  - destruct (merge_prompts_spec "masterpiece" " dog ") as [_ H].
    rewrite (H eq_refl). reflexivity.
Defined.

(** C6, as the code has it.  [merge_prompts "" P] is [P.strip()], and for a
    template [T] without placeholder [merge_prompts T ""] is [T.strip()]. *)
Theorem merge_prompts_empty_side :
  (forall P : str, merge_prompts "" P = strip P)
  /\ (forall T : str, str_in placeholder T = false ->
        merge_prompts T "" = strip T).
Proof.
  split.
  - intros P. unfold merge_prompts. change (str_in placeholder "") with false.
    cbv iota. rewrite join_nonempty_parts. change (strip "") with (@nil ascii).
    destruct (strip P); reflexivity.
  - intros T HT. unfold merge_prompts. rewrite HT, join_nonempty_parts.
    change (strip "") with (@nil ascii). destruct (strip T); reflexivity.
Qed.

Lemma merge_prompts_empty_side_witness :
  merge_prompts "" " a cat" = "a cat"
  /\ (str_in placeholder " highres " = false
      /\ merge_prompts " highres " "" = "highres").
Proof.
  destruct merge_prompts_empty_side as [H1 H2].
  split; [rewrite H1; reflexivity | split; [reflexivity|]].
  rewrite (H2 " highres " eq_refl). reflexivity.
Defined.

(** C6 as stated fails: a prompt with leading white space is not returned
    as it is. *)
Lemma merge_empty_template_not_identity :
  merge_prompts "" " a cat" = "a cat"
  /\ merge_prompts "" " a cat" <> " a cat".
Proof. split; [reflexivity | discriminate]. Qed.

Example merge_placeholder :
  merge_prompts "{prompt}, best quality" "a cat" = "a cat, best quality".
Proof. reflexivity. Qed.

Example merge_concat_twice :
  apply_styles_to_prompt "dog" [lit "masterpiece"; lit "highres"]
  = "dog, masterpiece, highres".
Proof. reflexivity. Qed.

Example merge_two_placeholders :
  merge_prompts "{prompt} and {prompt}" "x" = "x and x".
Proof. reflexivity. Qed.

Example merge_both_empty : merge_prompts "  " " " = "".
Proof. reflexivity. Qed.

Example split_maxsplit_two :
  split "{prompt}{prompt}{prompt}{prompt}" placeholder 2
  = [lit ""; lit ""; lit "{prompt}{prompt}"].
Proof. reflexivity. Qed.

(** ** TextNormalizer: the calls of lines 45-46 *)

Section NormalizerRaises.
Variable set_order : pyval -> pyval -> pyval -> order3.
Variable re_sub : str -> str -> str -> Z -> str.

(** The text handed over as [count] is a [str] or [None], never an
    integer: whatever [regex] is bound to, the call raises. *)
Lemma call_sub_text_raises (recv repl string : pyval) (text : option str) :
  call_sub re_sub recv repl string (of_field text) = Raise TypeError
  \/ call_sub re_sub recv repl string (of_field text) = Raise AttributeError.
Proof. destruct recv, text; simpl; auto. Qed.

Lemma tidy_re_list_raises (text : option str) :
  tidy set_order re_sub re_list (of_field text)
  = Raise (first_call_exn set_order).
Proof.
  unfold first_call_exn, re_list; cbn [tidy].
  destruct (set_order _ _ _), text; reflexivity.
Qed.

(** C2.  [extract_style_text_from_prompt] raises on every template and
    every candidate: [TypeError] when the first set display yields the
    compiled pattern in second place, [AttributeError] otherwise. *)
Theorem extract_style_text_from_prompt_raises
  (style_text : option str) (prompt : str) :
  extract_style_text_from_prompt set_order re_sub style_text prompt
  = Raise (first_call_exn set_order).
Proof.
  unfold extract_style_text_from_prompt.
  rewrite tidy_re_list_raises. reflexivity.
Qed.

Lemma extract_text_raises (style_text : option str) (prompt : str) :
  extract_style_text_from_prompt set_order re_sub style_text prompt
  = Raise (first_call_exn set_order).
Proof.
  unfold extract_style_text_from_prompt.
  rewrite tidy_re_list_raises. reflexivity.
Qed.
End NormalizerRaises.

Example raises_type_error :
  extract_style_text_from_prompt order_written sub_none
    (Some (lit "masterpiece")) "dog, masterpiece" = Raise TypeError.
Proof. reflexivity. Qed.

Example raises_attribute_error :
  extract_style_text_from_prompt order_pattern_last sub_none
    (Some (lit "masterpiece")) "dog, masterpiece" = Raise AttributeError.
Proof. reflexivity. Qed.

(** With an integer as [count] the same call would return: the exception
    comes from the arguments the source passes, not from the engine. *)
Example call_sub_well_typed :
  call_sub sub_none (PPattern "\s{2,}") (PStr " ") (PStr "a  b") (PInt 0)
  = Ok (PStr "a  b").
Proof. reflexivity. Qed.

(** A template with two placeholders: [split("{prompt}", 2)] yields three
    parts, and unpacking them into [left, right] raises. *)
Example match_two_placeholders :
  match_style_text (Some (lit "{prompt} and {prompt}")) "x and x"
  = Raise ValueError.
Proof. reflexivity. Qed.

(** ** StyleExtractor: the structural match of lines 49-63 *)

Lemma find_first_at (s sub : str) (i : nat) :
  first_at sub s i -> find s sub = Some i.
Proof.
  intros H. destruct (find s sub) as [j|] eqn:F.
  - f_equal. apply (first_at_unique sub s); [apply find_Some, F | exact H].
  - destruct H as [H _]. destruct (find_None _ _ F i H).
Qed.

Lemma find_absent (s sub : str) : absent sub s -> find s sub = None.
Proof.
  intros H. destruct (find s sub) as [j|] eqn:F; [|reflexivity].
  destruct (find_Some _ _ _ F) as [Hj _]. destruct (H j Hj).
Qed.

(** A template with exactly one placeholder splits into what stands before
    and what stands behind it. *)
Lemma split_one_placeholder (lft rgt : str) :
  first_at placeholder (lft ++ placeholder ++ rgt) (length lft) ->
  absent placeholder rgt ->
  split (lft ++ placeholder ++ rgt) placeholder 2 = [lft; rgt].
Proof.
  intros Hfirst Habs. cbn [split].
  rewrite (find_first_at _ _ _ Hfirst), firstn_prefix, skipn_prefix.
  rewrite (find_absent _ _ Habs). reflexivity.
Qed.

Lemma slice_middle (lft mid rgt : str) :
  slice (lft ++ mid ++ rgt) (length lft)
    (length (lft ++ mid ++ rgt) - length rgt) = mid.
Proof.
  unfold slice. rewrite !length_app.
  replace (length lft + (length mid + length rgt) - length rgt - length lft)
    with (length mid) by lia.
  rewrite skipn_app, Nat.sub_diag, skipn_all. simpl.
  apply firstn_prefix.
Qed.

(** The match of a template with one placeholder: the candidate starts with
    the left segment and ends with the right one; the remainder is the
    candidate without them. *)
Lemma match_placeholder_template (lft rgt prompt : str) :
  first_at placeholder (lft ++ placeholder ++ rgt) (length lft) ->
  absent placeholder rgt ->
  match_style_text (Some (lft ++ placeholder ++ rgt)) prompt
  = if startswith prompt lft && endswith prompt rgt
    then Ok (true, slice prompt (length lft) (length prompt - length rgt))
    else Ok (false, prompt).
Proof.
  intros Hfirst Habs. unfold match_style_text.
  assert (str_in placeholder (lft ++ placeholder ++ rgt) = true) as ->.
  { apply str_in_true. exists (length lft). apply Hfirst. }
  rewrite (split_one_placeholder _ _ Hfirst Habs). reflexivity.
Qed.

Lemma match_placeholder_wrapped (lft mid rgt : str) :
  first_at placeholder (lft ++ placeholder ++ rgt) (length lft) ->
  absent placeholder rgt ->
  match_style_text (Some (lft ++ placeholder ++ rgt)) (lft ++ mid ++ rgt)
  = Ok (true, mid).
Proof.
  intros Hfirst Habs. rewrite (match_placeholder_template _ _ _ Hfirst Habs).
  rewrite startswith_app.
  replace (endswith (lft ++ mid ++ rgt) rgt) with true.
  - cbn [andb]. rewrite slice_middle. reflexivity.
  - symmetry. rewrite app_assoc. apply endswith_app.
Qed.

(** The match of a template without placeholder: the candidate ends with
    the template; the remainder is what stands before it, less one trailing
    [", "]. *)
Lemma match_suffix_template (T prompt : str) :
  str_in placeholder T = false ->
  match_style_text (Some T) prompt
  = if endswith prompt T then
      let rest := firstn (length prompt - length T) prompt in
      Ok (true, if endswith rest comma_space
                then firstn (length rest - 2) rest else rest)
    else Ok (false, prompt).
Proof. intros H. unfold match_style_text. rewrite H. reflexivity. Qed.

Lemma match_suffix_sep (T pre : str) :
  str_in placeholder T = false ->
  match_style_text (Some T) (pre ++ comma_space ++ T) = Ok (true, pre).
Proof.
  intros H. rewrite (match_suffix_template _ _ H).
  rewrite app_assoc, endswith_app. cbv zeta.
  rewrite firstn_length_app, endswith_app.
  change 2 with (length comma_space). rewrite firstn_length_app. reflexivity.
Qed.

Lemma match_suffix_plain (T pre : str) :
  str_in placeholder T = false ->
  endswith pre comma_space = false ->
  match_style_text (Some T) (pre ++ T) = Ok (true, pre).
Proof.
  intros H Hsep. rewrite (match_suffix_template _ _ H).
  rewrite endswith_app. cbv zeta.
  rewrite firstn_length_app, Hsep. reflexivity.
Qed.

Lemma match_suffix_none (T prompt : str) :
  str_in placeholder T = false ->
  (forall pre, prompt <> pre ++ T) ->
  match_style_text (Some T) prompt = Ok (false, prompt).
Proof.
  intros H Hno. rewrite (match_suffix_template _ _ H).
  destruct (endswith prompt T) eqn:E; [|reflexivity].
  apply endswith_iff in E as [pre ->]. destruct (Hno pre eq_refl).
Qed.

(** Only one trailing separator is dropped. *)
Example match_suffix_one_separator :
  match_style_text (Some (lit "highres")) "dog, , highres" = Ok (true, lit "dog, ").
Proof. reflexivity. Qed.

Example match_placeholder_example :
  match_style_text (Some (lit "{prompt}, best quality")) "a cat, best quality"
  = Ok (true, lit "a cat").
Proof. reflexivity. Qed.

(** ** Trimmed texts *)

Lemma lstrip_length (s : str) : length (lstrip s) <= length s.
Proof.
  induction s as [|c s IH]; simpl; [lia|].
  destruct (isspace c); simpl; lia.
Qed.

Lemma lstrip_fixed (s : str) : length (lstrip s) = length s -> lstrip s = s.
Proof.
  destruct s as [|c s]; simpl; [reflexivity|].
  destruct (isspace c); [|reflexivity].
  pose proof (lstrip_length s); lia.
Qed.

Lemma rstrip_length (s : str) : length (rstrip s) <= length s.
Proof.
  unfold rstrip. rewrite length_rev.
  pose proof (lstrip_length (rev s)) as H. rewrite length_rev in H. exact H.
Qed.

Lemma trimmed_rstrip (s : str) : trimmed s -> rstrip s = s.
Proof.
  unfold trimmed, strip; intros H.
  assert (lstrip s = s) as E.
  { apply lstrip_fixed. pose proof (lstrip_length s).
    pose proof (rstrip_length (lstrip s)) as L. rewrite H in L. lia. }
  rewrite E in H. exact H.
Qed.

Lemma rstrip_drops_space (pre : str) (c : ascii) :
  isspace c = true -> length (rstrip (pre ++ [c])) <= length pre.
Proof.
  intros Hc. unfold rstrip. rewrite rev_unit, length_rev. simpl.
  rewrite Hc. pose proof (lstrip_length (rev pre)) as H.
  rewrite length_rev in H. exact H.
Qed.

Lemma trimmed_no_trailing_separator (s : str) :
  trimmed s -> endswith s comma_space = false.
Proof.
  intros H. destruct (endswith s comma_space) eqn:E; [|reflexivity].
  apply endswith_iff in E as [pre ->].
  apply trimmed_rstrip in H.
  change comma_space with ([","%char] ++ [" "%char]) in H.
  rewrite app_assoc in H.
  pose proof (rstrip_drops_space (pre ++ [","%char]) " "%char eq_refl) as L.
  rewrite H, !length_app in L. simpl in L. lia.
Qed.

(** The round trip on the structural match: what [merge_prompts] appends
    for a template without placeholder, [match_style_text] takes off again,
    when template and prompt are trimmed. *)
Lemma match_merge_roundtrip (T P : str) :
  str_in placeholder T = false -> trimmed T -> trimmed P ->
  match_style_text (Some T) (merge_prompts T P) = Ok (true, P).
Proof.
  intros HT TT TP.
  rewrite (merge_without_placeholder _ _ HT).
  unfold trimmed in TT, TP. rewrite TT, TP.
  destruct P as [|p P], T as [|t T]; cbn [joined_nonempty].
  - reflexivity.
  - apply (match_suffix_plain (t :: T) []); [exact HT | reflexivity].
  - rewrite <- (app_nil_r (p :: P)) at 1.
    apply match_suffix_plain; [reflexivity|].
    apply trimmed_no_trailing_separator. exact TP.
  - apply match_suffix_sep. exact HT.
Qed.

(** Without trimmed arguments the round trip fails on the match as well. *)
Example match_merge_untrimmed_prompt :
  match_style_text (Some (lit "highres")) (merge_prompts "highres" " dog")
  = Ok (true, lit "dog").
Proof. reflexivity. Qed.

Example match_merge_untrimmed_template :
  match_style_text (Some (lit " highres")) (merge_prompts " highres" "dog")
  = Ok (true, lit "dog,").
Proof. reflexivity. Qed.

(** ** Style records and the style dictionary *)

Lemma opt_eqb_eq (a b : option str) : PromptStyle.opt_eqb a b = true <-> a = b.
Proof.
  destruct a as [x|], b as [y|]; simpl; try (split; discriminate);
    [|tauto].
  rewrite str_eqb_eq. split; [intros ->; reflexivity | intros [= ->]; auto].
Qed.

Lemma PromptStyle_eqb_eq (a b : PromptStyle.t) :
  PromptStyle.eqb a b = true <-> a = b.
Proof.
  destruct a as [n1 p1 g1 h1], b as [n2 p2 g2 h2]; unfold PromptStyle.eqb; simpl.
  rewrite !andb_true_iff, str_eqb_eq, !opt_eqb_eq.
  split; [intros [[[-> ->] ->] ->]; reflexivity | intros [= -> -> -> ->]; auto].
Qed.

Lemma list_remove_perm (l l' : list PromptStyle.t) (x : PromptStyle.t) :
  list_remove l x = Ok l' -> Permutation l (x :: l').
Proof.
  revert l'; induction l as [|y l IH]; intros l'; simpl; [discriminate|].
  destruct (PromptStyle.eqb y x) eqn:E.
  - apply PromptStyle_eqb_eq in E; subst y. intros [= ->]. reflexivity.
  - destruct (list_remove l x) as [l''|e]; simpl; [|discriminate].
    intros [= <-]. rewrite (IH l'' eq_refl). apply perm_swap.
Qed.

Lemma list_remove_In (l : list PromptStyle.t) (x : PromptStyle.t) :
  In x l -> exists l', list_remove l x = Ok l'.
Proof.
  induction l as [|y l IH]; simpl; [tauto|].
  intros H. destruct (PromptStyle.eqb y x) eqn:E; [eauto|].
  destruct H as [->|H].
  - assert (PromptStyle.eqb x x = true) by (apply PromptStyle_eqb_eq; auto).
    congruence.
  - destruct (IH H) as [l' ->]. simpl; eauto.
Qed.

Lemma dict_names (d : style_dict) :
  dict_wf d -> map PromptStyle.name (values d) = map fst d.
Proof.
  intros [_ H]. unfold values. rewrite map_map.
  apply map_ext_in. intros kv Hin.
  rewrite Forall_forall in H. apply H, Hin.
Qed.

Lemma dict_set_keys (d : style_dict) (k : str) (v : PromptStyle.t) :
  forall k', In k' (map fst (dict_set d k v)) <-> k' = k \/ In k' (map fst d).
Proof.
  induction d as [|[k0 v0] d IH]; intros k'; simpl.
  - intuition.
  - destruct (str_eqb k0 k) eqn:E; simpl.
    + apply str_eqb_eq in E; subst. intuition.
    + rewrite IH. intuition.
Qed.

Lemma dict_set_wf (d : style_dict) (k : str) (v : PromptStyle.t) :
  PromptStyle.name v = k -> dict_wf d -> dict_wf (dict_set d k v).
Proof.
  intros <-. unfold dict_wf.
  induction d as [|[k0 v0] d IH]; intros [Hnd Hall]; simpl.
  - split; [repeat constructor; simpl; tauto | repeat constructor].
  - simpl in Hnd. inversion Hnd as [|? ? Hnotin Hnd']; subst.
    inversion Hall as [|? ? Hv0 Hall']; subst.
    destruct (str_eqb k0 (PromptStyle.name v)) eqn:E; simpl.
    + apply str_eqb_eq in E; subst k0.
      split; constructor; auto.
    + destruct (IH (conj Hnd' Hall')) as [IH1 IH2].
      split; constructor; auto.
      rewrite dict_set_keys. intros [->|Hin]; [|tauto].
      rewrite str_eqb_refl in E; discriminate.
Qed.

(** Storing a record under its own name keeps the dictionary well formed. *)
Lemma add_style_wf (d : style_dict) (style : PromptStyle.t) :
  dict_wf d -> dict_wf (add_style d style).
Proof. apply dict_set_wf; reflexivity. Qed.

Lemma dict_empty_wf : dict_wf [].
Proof. split; constructor. Qed.

(** ** Extraction search over any text-level extractor *)

Section SearchProperties.
Variable extract_text : option str -> str -> result (bool * str).

Local Abbreviation style_match := (extract_style_from_prompts_via extract_text).
Local Abbreviation first_match := (first_match_via extract_text).
Local Abbreviation peel := (peel_via extract_text).

Lemma style_match_empty (style : PromptStyle.t) (p n : str) :
  both_empty style = true -> style_match style p n = Ok (false, p, n).
Proof.
  intros H. unfold extract_style_from_prompts_via. rewrite H. reflexivity.
Qed.

(** What a returned triple tells: a match needs both templates to match,
    and a failed match hands the two texts back untouched. *)
Lemma style_match_returns (style : PromptStyle.t) (p n p' n' : str)
  (b : bool) :
  style_match style p n = Ok (b, p', n') ->
  (b = true ->
     both_empty style = false
     /\ extract_text (PromptStyle.prompt style) p = Ok (true, p')
     /\ extract_text (PromptStyle.negative_prompt style) n = Ok (true, n'))
  /\ (b = false -> p' = p /\ n' = n).
Proof.
  unfold extract_style_from_prompts_via.
  destruct (both_empty style).
  { intros [= <- <- <-]. split; [discriminate | auto]. }
  destruct (extract_text (PromptStyle.prompt style) p)
    as [[mp ep]|e]; cbn [bind]; [|discriminate].
  destruct mp; cbn [negb].
  2:{ intros [= <- <- <-]. split; [discriminate | auto]. }
  destruct (extract_text (PromptStyle.negative_prompt style) n)
    as [[mn en]|e]; cbn [bind]; [|discriminate].
  destruct mn; cbn [negb].
  - intros [= <- <- <-]. split; [auto | discriminate].
  - intros [= <- <- <-]. split; [discriminate | auto].
Qed.

Lemma style_match_both (style : PromptStyle.t) (p n p' n' : str) :
  both_empty style = false ->
  extract_text (PromptStyle.prompt style) p = Ok (true, p') ->
  extract_text (PromptStyle.negative_prompt style) n = Ok (true, n') ->
  style_match style p n = Ok (true, p', n').
Proof.
  intros H Hp Hn. unfold extract_style_from_prompts_via.
  rewrite H, Hp; cbn [bind negb]. rewrite Hn. reflexivity.
Qed.

Lemma style_match_positive_fails (style : PromptStyle.t) (p n x : str) :
  extract_text (PromptStyle.prompt style) p = Ok (false, x) ->
  style_match style p n = Ok (false, p, n).
Proof.
  intros Hp. unfold extract_style_from_prompts_via.
  destruct (both_empty style); [reflexivity|]. rewrite Hp. reflexivity.
Qed.

Lemma style_match_negative_fails (style : PromptStyle.t) (p n x y : str) :
  extract_text (PromptStyle.prompt style) p = Ok (true, x) ->
  extract_text (PromptStyle.negative_prompt style) n = Ok (false, y) ->
  style_match style p n = Ok (false, p, n).
Proof.
  intros Hp Hn. unfold extract_style_from_prompts_via.
  destruct (both_empty style); [reflexivity|].
  rewrite Hp; cbn [bind negb]. rewrite Hn. reflexivity.
Qed.

Lemma first_match_found (applicable : list PromptStyle.t) (p n p' n' : str)
  (style : PromptStyle.t) :
  first_match applicable p n = Ok (Some (style, p', n')) ->
  In style applicable /\ style_match style p n = Ok (true, p', n').
Proof.
  induction applicable as [|st rest IH]; simpl; [discriminate|].
  destruct (style_match st p n) as [[[b q] m]|e] eqn:E; cbn [bind];
    [|discriminate].
  destruct b.
  - intros [= <- <- <-]. auto.
  - intros H. destruct (IH H). auto.
Qed.

Lemma first_match_none (applicable : list PromptStyle.t) (p n : str) :
  first_match applicable p n = Ok None ->
  forall style, In style applicable -> style_match style p n = Ok (false, p, n).
Proof.
  induction applicable as [|st rest IH]; simpl; [tauto|].
  destruct (style_match st p n) as [[[b q] m]|e] eqn:E; cbn [bind];
    [|discriminate].
  destruct b; [discriminate|].
  intros H style [<-|Hin]; [|auto].
  destruct (style_match_returns _ _ _ _ _ _ E) as [_ Hf].
  destruct (Hf eq_refl) as [-> ->]. exact E.
Qed.

Lemma found_style_not_empty (style : PromptStyle.t) (p n p' n' : str) :
  style_match style p n = Ok (true, p', n') -> both_empty style = false.
Proof.
  intros H. destruct (both_empty style) eqn:E; [|reflexivity].
  rewrite (style_match_empty _ p n E) in H. discriminate.
Qed.

(** A successful pass takes exactly one style out of the applicable list. *)
Lemma pass_removes_one (applicable : list PromptStyle.t) (p n p' n' : str)
  (style : PromptStyle.t) :
  first_match applicable p n = Ok (Some (style, p', n')) ->
  exists applicable',
    list_remove applicable style = Ok applicable'
    /\ Permutation applicable (style :: applicable')
    /\ length applicable = S (length applicable').
Proof.
  intros H. apply first_match_found in H as [Hin _].
  destruct (list_remove_In _ _ Hin) as [l' Hl]. exists l'.
  pose proof (list_remove_perm _ _ _ Hl) as P.
  repeat split; auto. apply (Permutation_length P).
Qed.

(** The loop ends within one pass more than there are applicable styles. *)
Lemma peel_enough (passes : nat) :
  forall (applicable : list PromptStyle.t) (extracted : list str) (p n : str),
  length applicable < passes ->
  exists r, peel passes applicable extracted p n = Some r.
Proof.
  induction passes as [|k IH]; intros applicable extracted p n Hlen; [lia|].
  cbn [peel_via].
  destruct (first_match applicable p n) as [[[[st q] m]|]|e] eqn:E; eauto.
  destruct (pass_removes_one _ _ _ _ _ _ E) as (l' & -> & _ & L).
  apply IH. lia.
Qed.

(** More passes than needed do not change the outcome. *)
Lemma peel_more (passes : nat) :
  forall passes' (applicable : list PromptStyle.t) (extracted : list str)
         (p n : str) r,
  peel passes applicable extracted p n = Some r ->
  passes <= passes' ->
  peel passes' applicable extracted p n = Some r.
Proof.
  induction passes as [|k IH]; intros passes' applicable extracted p n r;
    [discriminate|].
  intros H Hle. destruct passes' as [|k']; [lia|].
  cbn [peel_via] in *.
  destruct (first_match applicable p n) as [[[[st q] m]|]|e]; auto.
  destruct (list_remove applicable st) as [l'|e]; auto.
  apply IH; [exact H | lia].
Qed.

(** The names returned are those of styles found, each taken out of the
    applicable list once, behind the names found before. *)
Lemma peel_names (passes : nat) :
  forall (applicable : list PromptStyle.t) (extracted names : list str)
         (p n p' n' : str),
  peel passes applicable extracted p n = Some (Ok (names, p', n')) ->
  exists found rest,
    names = rev (extracted ++ map PromptStyle.name found)
    /\ Permutation applicable (found ++ rest)
    /\ Forall (fun style => both_empty style = false) found.
Proof.
  induction passes as [|k IH]; intros applicable extracted names p n p' n';
    [discriminate|].
  cbn [peel_via].
  destruct (first_match applicable p n) as [[[[st q] m]|]|e] eqn:E;
    [| |discriminate].
  - destruct (pass_removes_one _ _ _ _ _ _ E) as (l' & -> & P & _).
    intros H. apply IH in H as (found & rest & -> & P' & F).
    exists (st :: found), rest. repeat split.
    + simpl. rewrite <- app_assoc. reflexivity.
    + rewrite P. simpl. constructor. exact P'.
    + constructor; [|exact F].
      apply first_match_found in E as [_ E].
      apply (found_style_not_empty _ _ _ _ _ E).
  - intros [= <- <- <-]. exists [], applicable. simpl.
    rewrite app_nil_r. repeat split; auto.
Qed.
End SearchProperties.

Lemma NoDup_map_injective {A B} (f : A -> B) (l : list A) (a b : A) :
  NoDup (map f l) -> In a l -> In b l -> f a = f b -> a = b.
Proof.
  induction l as [|x l IH]; simpl; [tauto|].
  intros H Ha Hb E. inversion H as [|? ? Hx Hl]; subst.
  destruct Ha as [->|Ha], Hb as [->|Hb]; auto.
  - destruct Hx. rewrite E. apply in_map, Hb.
  - destruct Hx. rewrite <- E. apply in_map, Ha.
Qed.

Section SearchResults.
Variable extract_text : option str -> str -> result (bool * str).

(** The search ends, and further passes change nothing. *)
Lemma search_terminates (styles : style_dict) (p n : str) :
  exists r,
    extract_styles_via extract_text styles p n = Some r
    /\ forall passes, length styles < passes ->
         peel_via extract_text passes (values styles) [] p n = Some r.
Proof.
  unfold extract_styles_via.
  assert (length (values styles) = length styles) as L
    by apply length_map.
  destruct (peel_enough extract_text (S (length styles)) (values styles) [] p n)
    as [r Hr]; [lia|].
  exists r. split; [exact Hr|].
  intros passes Hp. apply (peel_more extract_text _ _ _ _ _ _ _ Hr). lia.
Qed.

(** The names returned belong to distinct styles of the set, none of them
    with both templates empty. *)
Lemma search_names (styles : style_dict) (p n p' n' : str)
  (names : list str) :
  extract_styles_via extract_text styles p n = Some (Ok (names, p', n')) ->
  exists found rest,
    names = rev (map PromptStyle.name found)
    /\ Permutation (values styles) (found ++ rest)
    /\ Forall (fun style => both_empty style = false) found.
Proof. intros H. apply peel_names in H. exact H. Qed.

Lemma search_names_bound (styles : style_dict) (p n p' n' : str)
  (names : list str) :
  extract_styles_via extract_text styles p n = Some (Ok (names, p', n')) ->
  length names <= length styles.
Proof.
  intros H. apply search_names in H as (found & rest & -> & P & _).
  apply Permutation_length in P.
  unfold values in P. rewrite length_map, length_app in P.
  rewrite length_rev, length_map. lia.
Qed.

Lemma search_names_nodup (styles : style_dict) (p n p' n' : str)
  (names : list str) :
  dict_wf styles ->
  extract_styles_via extract_text styles p n = Some (Ok (names, p', n')) ->
  NoDup names.
Proof.
  intros Hwf H. apply search_names in H as (found & rest & -> & P & _).
  apply NoDup_rev.
  assert (NoDup (map PromptStyle.name (values styles))) as Hnd
    by (rewrite (dict_names _ Hwf); apply Hwf).
  apply (Permutation_map PromptStyle.name) in P.
  rewrite map_app in P.
  apply (Permutation_NoDup P) in Hnd.
  apply NoDup_app_remove_r in Hnd. exact Hnd.
Qed.

Lemma search_skips_empty (styles : style_dict) (p n p' n' : str)
  (names : list str) (style : PromptStyle.t) :
  dict_wf styles ->
  extract_styles_via extract_text styles p n = Some (Ok (names, p', n')) ->
  In style (values styles) -> both_empty style = true ->
  ~ In (PromptStyle.name style) names.
Proof.
  intros Hwf H Hin Hempty Hname.
  apply search_names in H as (found & rest & -> & P & F).
  apply in_rev in Hname. apply in_map_iff in Hname as (st & E & Hst).
  assert (In st (values styles)) as Hst'.
  { apply (Permutation_in st (Permutation_sym P)). apply in_or_app; auto. }
  assert (st = style) as ->.
  { apply (NoDup_map_injective PromptStyle.name (values styles)); auto.
    rewrite (dict_names _ Hwf). apply Hwf. }
  rewrite Forall_forall in F. specialize (F _ Hst). congruence.
Qed.
End SearchResults.

(** Over the structural match alone the search recovers the three styles in
    the order of application, and the texts they were applied to. *)
Example search_over_structural_match :
  extract_styles_via match_style_text three_styles
    (apply_styles_to_prompt "dog"
       [lit "masterpiece"; lit "highres"; lit "{prompt}, 4k"])
    (apply_styles_to_prompt ""
       [lit "blurry"; lit "lowres"; lit "{prompt}, jpeg artifacts"])
  = Some (Ok ([lit "S1"; lit "S2"; lit "S3"], lit "dog", lit "")).
Proof. reflexivity. Qed.

(** ** The extraction path of the program *)

Section ProgramProperties.
Variable set_order : pyval -> pyval -> pyval -> order3.
Variable re_sub : str -> str -> str -> Z -> str.

Local Abbreviation extract_text :=
  (extract_style_text_from_prompt set_order re_sub).

(** A style with a template that is not empty reaches the text-level
    extractor, and with it the exception. *)
Lemma extract_style_raises (style : PromptStyle.t) (p n : str) :
  both_empty style = false ->
  extract_style_from_prompts set_order re_sub style p n
  = Raise (first_call_exn set_order).
Proof.
  intros H. unfold extract_style_from_prompts, extract_style_from_prompts_via.
  rewrite H, extract_text_raises. reflexivity.
Qed.

Lemma first_match_program (applicable : list PromptStyle.t) (p n : str) :
  first_match_via extract_text applicable p n
  = if forallb both_empty applicable then Ok None
    else Raise (first_call_exn set_order).
Proof.
  induction applicable as [|st rest IH]; [reflexivity|].
  cbn [first_match_via forallb].
  destruct (both_empty st) eqn:E.
  - rewrite (style_match_empty _ _ _ _ E). cbn [bind andb]. exact IH.
  - fold (extract_style_from_prompts set_order re_sub st p n).
    rewrite (extract_style_raises _ _ _ E). reflexivity.
Qed.

(** All the program's search can do: hand the texts back when every style
    has both templates empty, raise otherwise. *)
Lemma extract_styles_program (styles : style_dict) (p n : str) :
  extract_styles_from_prompt set_order re_sub styles p n
  = Some (if forallb both_empty (values styles) then Ok ([], p, n)
          else Raise (first_call_exn set_order)).
Proof.
  unfold extract_styles_from_prompt, extract_styles_via. cbn [peel_via].
  rewrite first_match_program.
  destruct (forallb both_empty (values styles)); reflexivity.
Qed.

(** C1.  Three styles folded into a prompt and a negative prompt: the
    search raises instead of returning the three names and the two texts. *)
Theorem extract_three_styles_raises :
  extract_styles_from_prompt set_order re_sub three_styles
    (apply_styles_to_prompt "dog"
       [lit "masterpiece"; lit "highres"; lit "{prompt}, 4k"])
    (apply_styles_to_prompt ""
       [lit "blurry"; lit "lowres"; lit "{prompt}, jpeg artifacts"])
  = Some (Raise (first_call_exn set_order)).
Proof. rewrite extract_styles_program. reflexivity. Qed.

(** C3.  A template without placeholder against a candidate that ends with
    it: the extractor raises, where the structural match alone returns the
    stripped candidate. *)
Theorem extract_suffix_raises :
  extract_style_text_from_prompt set_order re_sub
    (Some (lit "masterpiece")) "dog, masterpiece"
  = Raise (first_call_exn set_order)
  /\ match_style_text (Some (lit "masterpiece")) "dog, masterpiece"
     = Ok (true, lit "dog").
Proof. split; [apply extract_text_raises | reflexivity]. Qed.

(** C4.  The template [{prompt}, best quality] against
    [a cat, best quality]: the extractor raises, where the structural match
    alone returns [(True, "a cat")]. *)
Theorem extract_placeholder_raises :
  extract_style_text_from_prompt set_order re_sub
    (Some (lit "{prompt}, best quality")) "a cat, best quality"
  = Raise (first_call_exn set_order)
  /\ match_style_text (Some (lit "{prompt}, best quality"))
       "a cat, best quality"
     = Ok (true, lit "a cat").
Proof. split; [apply extract_text_raises | reflexivity]. Qed.

(** C7.  Merge followed by extract: the extractor raises on the merged
    text, where the structural match alone returns the prompt. *)
Theorem extract_after_merge_raises :
  extract_style_text_from_prompt set_order re_sub
    (Some (lit "masterpiece")) (merge_prompts "masterpiece" "dog")
  = Raise (first_call_exn set_order)
  /\ match_style_text (Some (lit "masterpiece"))
       (merge_prompts "masterpiece" "dog")
     = Ok (true, lit "dog").
Proof. split; [apply extract_text_raises | reflexivity]. Qed.

(** C8.  A style whose positive template does not match the prompt:
    [extract_style_from_prompts] raises instead of returning
    [(False, prompt, negative_prompt)] with the two texts as they were
    passed; over the structural match alone the same call returns that
    triple. *)
Theorem extract_style_no_match_raises :
  extract_style_from_prompts set_order re_sub
    (PromptStyle.make "masterpiece" (Some (lit "masterpiece")) (Some (lit ""))
       None) "dog" ""
  = Raise (first_call_exn set_order)
  /\ extract_style_from_prompts_via match_style_text
       (PromptStyle.make "masterpiece" (Some (lit "masterpiece"))
          (Some (lit "")) None) "dog" ""
     = Ok (false, lit "dog", lit "").
Proof. split; [apply extract_style_raises; reflexivity | reflexivity]. Qed.

(** C9.  A style with both templates empty, such as the no-op style and a
    divider record, is reported as no match, and its name is not among the
    names the search returns. *)
Theorem empty_style_never_extracted :
  (both_empty no_style = true /\ forall file, both_empty (divider file) = true)
  /\ (forall style p n,
     both_empty style = true ->
     extract_style_from_prompts set_order re_sub style p n = Ok (false, p, n))
  /\ (forall styles p n names p' n' style,
        dict_wf styles ->
        extract_styles_from_prompt set_order re_sub styles p n
        = Some (Ok (names, p', n')) ->
        In style (values styles) -> both_empty style = true ->
        ~ In (PromptStyle.name style) names).
Proof.
  split; [split; reflexivity|]. split.
  - intros style p n H. apply style_match_empty, H.
  - intros styles p n names p' n' style Hwf H.
    apply (search_skips_empty _ _ _ _ _ _ _ _ Hwf H).
Qed.

End ProgramProperties.

(** C10.  The search loop of lines 196-213, over any text-level extractor
    and so over the program's own: a successful pass takes exactly one
    style out of the applicable list; the loop ends within one pass more
    than there are styles, and more passes change nothing; the names it
    returns are no more than the styles and, names being unique in the
    dictionary, pairwise distinct.  The program's search ends for every
    style set and every pair of texts. *)
Theorem extract_styles_from_prompt_terminates
  (extract_text : option str -> str -> result (bool * str))
  (styles : style_dict) (p n : str) :
  (forall applicable q m style q' m',
     first_match_via extract_text applicable q m = Ok (Some (style, q', m')) ->
     exists applicable',
       list_remove applicable style = Ok applicable'
       /\ Permutation applicable (style :: applicable')
       /\ length applicable = S (length applicable'))
  /\ (exists r,
        extract_styles_via extract_text styles p n = Some r
        /\ (forall passes, length styles < passes ->
              peel_via extract_text passes (values styles) [] p n = Some r)
        /\ (forall names p' n',
              r = Ok (names, p', n') ->
              length names <= length styles
              /\ (dict_wf styles -> NoDup names)))
  /\ (forall set_order re_sub,
        exists r,
          extract_styles_from_prompt set_order re_sub styles p n = Some r
          /\ forall passes, length styles < passes ->
               peel_via (extract_style_text_from_prompt set_order re_sub)
                 passes (values styles) [] p n = Some r).
Proof.
  split; [|split].
  - intros applicable q m style q' m' H.
    apply (pass_removes_one extract_text _ _ _ _ _ _ H).
  - destruct (search_terminates extract_text styles p n) as (r & Hr & Hmore).
    exists r. repeat split; auto.
    + subst r. apply (search_names_bound _ _ _ _ _ _ _ Hr).
    + intros Hwf. subst r. apply (search_names_nodup _ _ _ _ _ _ _ Hwf Hr).
  - intros set_order re_sub.
    apply (search_terminates
             (extract_style_text_from_prompt set_order re_sub) styles p n).
Qed.

(** ** Instances *)

Lemma blank_styles_wf : dict_wf blank_styles.
Proof. apply add_style_wf, add_style_wf, dict_empty_wf. Qed.

Lemma three_styles_wf : dict_wf three_styles.
Proof. apply add_style_wf, add_style_wf, add_style_wf, dict_empty_wf. Qed.

Lemma empty_style_never_extracted_witness :
  (both_empty style_blank = true
   /\ extract_style_from_prompts order_written sub_none style_blank "dog" ""
      = Ok (false, lit "dog", lit ""))
  /\ (dict_wf blank_styles
      /\ extract_styles_from_prompt order_written sub_none blank_styles "dog" ""
         = Some (Ok ([], lit "dog", lit ""))
      /\ In style_blank (values blank_styles)
      /\ ~ In (PromptStyle.name style_blank) []).
Proof.
  destruct (empty_style_never_extracted order_written sub_none)
    as (_ & Hstyle & Hsearch).
  split.
  - split; [reflexivity | apply Hstyle; reflexivity].
  - split; [exact blank_styles_wf|].
    split; [reflexivity|].
    split; [right; left; reflexivity|].
    apply (Hsearch blank_styles "dog" "" [] "dog" "" style_blank).
    + exact blank_styles_wf.
    + reflexivity.
    + right; left; reflexivity.
    + reflexivity.
Defined.

(** Over the structural match the first pass finds the style applied last
    and takes it out of the three; the search then returns three distinct
    names. *)
Lemma extract_styles_from_prompt_terminates_witness :
  first_match_via match_style_text (values three_styles)
    "dog, masterpiece, highres, 4k" "blurry, lowres, jpeg artifacts"
  = Ok (Some (style_S3, lit "dog, masterpiece, highres", lit "blurry, lowres"))
  /\ (exists applicable',
        list_remove (values three_styles) style_S3 = Ok applicable'
        /\ Permutation (values three_styles) (style_S3 :: applicable')
        /\ length (values three_styles) = S (length applicable'))
  /\ 3 < 4
  /\ peel_via match_style_text 4 (values three_styles) []
       "dog, masterpiece, highres, 4k" "blurry, lowres, jpeg artifacts"
     = Some (Ok ([lit "S1"; lit "S2"; lit "S3"], lit "dog", lit ""))
  /\ dict_wf three_styles
  /\ NoDup [lit "S1"; lit "S2"; lit "S3"].
Proof.
  destruct (extract_styles_from_prompt_terminates match_style_text
              three_styles "dog, masterpiece, highres, 4k"
              "blurry, lowres, jpeg artifacts")
    as (Hpass & (r & Hr & Hmore & Hnames) & _).
  assert (r = Ok ([lit "S1"; lit "S2"; lit "S3"], lit "dog", lit "")) as Er.
  { assert (Some r
            = Some (Ok ([lit "S1"; lit "S2"; lit "S3"], lit "dog", lit "")))
      as E by (rewrite <- Hr; reflexivity).
    injection E as E. exact E. }
  split; [reflexivity|].
  split.
  { apply (Hpass (values three_styles) "dog, masterpiece, highres, 4k"
             "blurry, lowres, jpeg artifacts" style_S3
             "dog, masterpiece, highres" "blurry, lowres").
    reflexivity. }
  split; [repeat constructor|].
  split; [rewrite (Hmore 4 ltac:(repeat constructor)); rewrite Er; reflexivity|].
  split; [exact three_styles_wf|].
  destruct (Hnames _ _ _ Er) as [_ Hnd]. exact (Hnd three_styles_wf).
Defined.

(** * Further properties *)

(** ** Trimming *)

Lemma lstrip_idempotent (s : str) : lstrip (lstrip s) = lstrip s.
Proof.
  induction s as [|c s IH]; simpl; [reflexivity|].
  destruct (isspace c) eqn:E; [exact IH | simpl; rewrite E; reflexivity].
Qed.

Lemma lstrip_head (c : ascii) (s : str) :
  lstrip (c :: s) = c :: s -> isspace c = false.
Proof.
  simpl. destruct (isspace c); [|reflexivity].
  intros H. pose proof (lstrip_length s) as L. rewrite H in L.
  simpl in L. lia.
Qed.

Lemma lstrip_app_fixed (x y : str) :
  x <> [] -> lstrip x = x -> lstrip (x ++ y) = x ++ y.
Proof.
  destruct x as [|c x]; [congruence|]. intros _ H.
  apply lstrip_head in H. simpl. rewrite H. reflexivity.
Qed.

Lemma lstrip_prefix_fixed (p w : str) :
  lstrip (p ++ w) = p ++ w -> p <> [] -> lstrip p = p.
Proof.
  destruct p as [|c p]; [congruence|]. intros H _.
  simpl in H. apply lstrip_head in H. simpl. rewrite H. reflexivity.
Qed.

Lemma lstrip_suffix (s : str) : exists w, s = w ++ lstrip s.
Proof.
  induction s as [|c s [w IH]]; simpl; [exists []; reflexivity|].
  destruct (isspace c).
  - exists (c :: w). simpl. rewrite <- IH. reflexivity.
  - exists []. reflexivity.
Qed.

Lemma rstrip_prefix (s : str) : exists w, s = rstrip s ++ w.
Proof.
  unfold rstrip. destruct (lstrip_suffix (rev s)) as [w H].
  exists (rev w). rewrite <- rev_app_distr, <- H, rev_involutive. reflexivity.
Qed.

Lemma trimmed_iff (s : str) :
  trimmed s <-> lstrip s = s /\ lstrip (rev s) = rev s.
Proof.
  split.
  - intros H. pose proof (trimmed_rstrip _ H) as R.
    assert (lstrip s = s) as E.
    { apply lstrip_fixed. pose proof (lstrip_length s).
      pose proof (rstrip_length (lstrip s)) as L.
      unfold trimmed, strip in H. rewrite H in L. lia. }
    split; [exact E|].
    unfold rstrip in R. rewrite <- R at 2. rewrite rev_involutive. reflexivity.
  - intros [E R]. unfold trimmed, strip, rstrip. rewrite E, R.
    apply rev_involutive.
Qed.

(** [strip] leaves no white space at either end. *)
Lemma strip_trimmed (s : str) : trimmed (strip s).
Proof.
  apply trimmed_iff. split.
  - destruct (rstrip_prefix (lstrip s)) as [w H].
    unfold strip. destruct (rstrip (lstrip s)) as [|c q] eqn:E; [reflexivity|].
    apply (lstrip_prefix_fixed (c :: q) w); [|discriminate].
    rewrite <- H. apply lstrip_idempotent.
  - unfold strip, rstrip. rewrite rev_involutive. apply lstrip_idempotent.
Qed.

Lemma strip_idempotent (s : str) : strip (strip s) = strip s.
Proof. apply strip_trimmed. Qed.

Lemma trimmed_nil : trimmed [].
Proof. reflexivity. Qed.

Lemma trimmed_app (p m t : str) :
  p <> [] -> t <> [] -> trimmed p -> trimmed t -> trimmed (p ++ m ++ t).
Proof.
  intros Hp Ht Tp Tt. apply trimmed_iff in Tp as [Pl _].
  apply trimmed_iff in Tt as [_ Tr]. apply trimmed_iff. split.
  - apply lstrip_app_fixed; assumption.
  - rewrite !rev_app_distr, <- app_assoc. apply lstrip_app_fixed; [|exact Tr].
    intros E. apply (f_equal (@rev ascii)) in E.
    rewrite rev_involutive in E. simpl in E. congruence.
Qed.

Lemma joined_nonempty_trimmed (p t : str) :
  trimmed p -> trimmed t -> trimmed (joined_nonempty p t).
Proof.
  intros Tp Tt. destruct p as [|a p], t as [|b t]; cbn [joined_nonempty]; auto.
  apply trimmed_app; auto; discriminate.
Qed.

(** ** Joining *)

Lemma join_snoc (sep : str) (parts : list str) (t : str) :
  parts <> [] -> join sep (parts ++ [t]) = join sep parts ++ sep ++ t.
Proof.
  induction parts as [|p rest IH]; [congruence|]. intros _.
  destruct rest as [|q rest]; [reflexivity|].
  change (join sep ((p :: q :: rest) ++ [t]))
    with (p ++ sep ++ join sep ((q :: rest) ++ [t])).
  rewrite IH by discriminate.
  change (join sep (p :: q :: rest)) with (p ++ sep ++ join sep (q :: rest)).
  rewrite <- !app_assoc. reflexivity.
Qed.

Lemma join_truthy (sep : str) (parts : list str) :
  parts <> [] -> Forall (fun p => truthy p = true) parts ->
  truthy (join sep parts) = true.
Proof.
  destruct parts as [|p rest]; [congruence|]. intros _ H.
  inversion H as [|? ? Hp _]; subst.
  destruct p as [|c p]; [discriminate|].
  destruct rest; reflexivity.
Qed.

Lemma join_trimmed (sep : str) (parts : list str) :
  Forall (fun p => truthy p = true /\ trimmed p) parts ->
  trimmed (join sep parts).
Proof.
  induction parts as [|p rest IH]; intros H; [reflexivity|].
  inversion H as [|? ? [Hp Tp] Hrest]; subst.
  destruct rest as [|q rest]; [exact Tp|].
  change (join sep (p :: q :: rest)) with (p ++ sep ++ join sep (q :: rest)).
  apply trimmed_app; auto.
  - destruct p; [discriminate | discriminate].
  - assert (truthy (join sep (q :: rest)) = true) as J.
    { apply join_truthy; [discriminate|].
      apply Forall_impl with (2 := Hrest). tauto. }
    destruct (join sep (q :: rest)); [discriminate | discriminate].
Qed.

Lemma joined_nonempty_join (parts : list str) (t : str) :
  Forall (fun p => truthy p = true) parts ->
  joined_nonempty (join comma_space parts) t
  = join comma_space (parts ++ filter truthy [t]).
Proof.
  intros H. destruct parts as [|p rest].
  - destruct t; reflexivity.
  - pose proof (join_truthy comma_space (p :: rest)) as J.
    specialize (J ltac:(discriminate) H).
    destruct t as [|c t].
    + cbn [filter truthy]. rewrite app_nil_r.
      destruct (join comma_space (p :: rest)); [discriminate | reflexivity].
    + cbn [filter truthy]. rewrite join_snoc by discriminate.
      destruct (join comma_space (p :: rest)); [discriminate | reflexivity].
Qed.

Lemma stripped_parts (texts : list str) :
  Forall (fun p => truthy p = true /\ trimmed p)
    (filter truthy (map strip texts)).
Proof.
  apply Forall_forall. intros p Hp. apply filter_In in Hp as [Hin Ht].
  split; [exact Ht|]. apply in_map_iff in Hin as (x & <- & _).
  apply strip_trimmed.
Qed.

(** ** Merging several templates *)

(** X1.  Without a placeholder in the template, the merged text has no
    white space at either end, whatever the prompt and the template carry
    around them. *)
Theorem merge_concat_trimmed (T P : str) :
  str_in placeholder T = false -> trimmed (merge_prompts T P).
Proof.
  intros H. rewrite (merge_without_placeholder _ _ H).
  apply joined_nonempty_trimmed; apply strip_trimmed.
Qed.

Lemma merge_concat_trimmed_witness :
  str_in placeholder " highres " = false
  /\ trimmed (merge_prompts " highres " "  a dog ").
Proof.
  split; [reflexivity|].
  apply (merge_concat_trimmed " highres " "  a dog "). reflexivity.
Defined.

(** X2.  Folding templates without placeholder into a prompt gives the
    non-empty ones of the stripped prompt and the stripped templates, in
    application order, joined with [", "]: the fold never nests or repeats
    a separator. *)
Theorem apply_styles_closed_form (P : str) (Ts : list str) :
  Ts <> [] ->
  Forall (fun T => str_in placeholder T = false) Ts ->
  apply_styles_to_prompt P Ts
  = join comma_space (filter truthy (map strip (P :: Ts))).
Proof.
  induction Ts as [|T Ts IH] using rev_ind; [congruence|].
  intros _ H. apply Forall_app in H as [HTs HT].
  inversion HT as [|? ? HT' _]; subst.
  unfold apply_styles_to_prompt. rewrite fold_left_app. cbn [fold_left].
  fold (apply_styles_to_prompt P Ts).
  rewrite (merge_without_placeholder _ _ HT').
  destruct Ts as [|T0 Ts0].
  - cbn [apply_styles_to_prompt fold_left app map].
    symmetry. apply join_nonempty_parts.
  - rewrite (IH ltac:(discriminate) HTs).
    set (parts := filter truthy (map strip (P :: T0 :: Ts0))).
    assert (trimmed (join comma_space parts)) as Tj
      by apply join_trimmed, stripped_parts.
    unfold trimmed in Tj. rewrite Tj.
    rewrite joined_nonempty_join.
    + unfold parts. rewrite <- filter_app.
      f_equal. f_equal. cbn [map app]. rewrite map_app. reflexivity.
    + apply Forall_impl with (2 := stripped_parts (P :: T0 :: Ts0)). tauto.
Qed.

Lemma apply_styles_closed_form_witness :
  [lit " masterpiece"; lit "  "; lit "highres "] <> []
  /\ Forall (fun T => str_in placeholder T = false)
       [lit " masterpiece"; lit "  "; lit "highres "]
  /\ apply_styles_to_prompt " dog" [lit " masterpiece"; lit "  "; lit "highres "]
     = "dog, masterpiece, highres".
Proof.
  split; [discriminate|]. split; [repeat constructor|].
  rewrite (apply_styles_closed_form " dog"
             [lit " masterpiece"; lit "  "; lit "highres "]).
  - reflexivity.
  - discriminate.
  - repeat constructor.
Defined.

(** ** StyleDatabase: merging by name *)

Lemma merge_empty_template (P : str) : merge_prompts [] P = strip P.
Proof.
  rewrite merge_without_placeholder by reflexivity.
  change (strip []) with (@nil ascii). destruct (strip P); reflexivity.
Qed.

Lemma apply_empty_templates (n : nat) (P : str) :
  apply_styles_to_prompt P (repeat [] (S n)) = strip P.
Proof.
  revert P; induction n as [|n IH]; intros P.
  - apply merge_empty_template.
  - change (apply_styles_to_prompt P (repeat [] (S (S n))))
      with (apply_styles_to_prompt (merge_prompts [] P) (repeat [] (S n))).
    rewrite IH, merge_empty_template. apply strip_idempotent.
Qed.

Lemma apply_styles_call_some (Ts : list str) (P : str) :
  StyleDatabase.apply_styles_call P (map Some Ts)
  = Ok (apply_styles_to_prompt P Ts).
Proof.
  revert P; induction Ts as [|T Ts IH]; intros P; [reflexivity|].
  cbn [map StyleDatabase.apply_styles_call StyleDatabase.merge_prompts_call bind].
  apply IH.
Qed.

Lemma apply_styles_call_none (fields : list (option str)) (P : str) :
  In None fields -> StyleDatabase.apply_styles_call P fields = Raise TypeError.
Proof.
  revert P; induction fields as [|f fields IH]; intros P; [intros []|].
  intros [->|H]; [reflexivity|].
  destruct f as [T|]; [|reflexivity].
  cbn [StyleDatabase.apply_styles_call StyleDatabase.merge_prompts_call bind].
  apply IH, H.
Qed.

(** X3.  Merging by name raises [TypeError] as soon as one of the names
    selects a record without template, such as a divider; when every
    selected record has one, the result is the fold of [merge_prompts] over
    the templates.  The same holds on the negative side. *)
Theorem apply_by_name_outcome (d : style_dict) (P : str) (names : list str) :
  ((exists x, In x names
              /\ PromptStyle.prompt (StyleDatabase.get d x) = None) ->
   StyleDatabase.apply_styles_to_prompt d P names = Raise TypeError)
  /\ (forall Ts, StyleDatabase.get_style_prompts d names = map Some Ts ->
        StyleDatabase.apply_styles_to_prompt d P names
        = Ok (apply_styles_to_prompt P Ts))
  /\ ((exists x, In x names
                 /\ PromptStyle.negative_prompt (StyleDatabase.get d x) = None) ->
      StyleDatabase.apply_negative_styles_to_prompt d P names = Raise TypeError)
  /\ (forall Ts, StyleDatabase.get_negative_style_prompts d names = map Some Ts ->
        StyleDatabase.apply_negative_styles_to_prompt d P names
        = Ok (apply_styles_to_prompt P Ts)).
Proof.
  unfold StyleDatabase.apply_styles_to_prompt,
    StyleDatabase.apply_negative_styles_to_prompt.
  repeat split.
  - intros (x & Hin & Hx). apply apply_styles_call_none.
    unfold StyleDatabase.get_style_prompts. rewrite <- Hx.
    apply (in_map (fun x => PromptStyle.prompt (StyleDatabase.get d x))), Hin.
  - intros Ts ->. apply apply_styles_call_some.
  - intros (x & Hin & Hx). apply apply_styles_call_none.
    unfold StyleDatabase.get_negative_style_prompts. rewrite <- Hx.
    apply (in_map (fun x => PromptStyle.negative_prompt (StyleDatabase.get d x))),
      Hin.
  - intros Ts ->. apply apply_styles_call_some.
Qed.

Lemma apply_by_name_outcome_witness :
  (exists x, In x [lit "S1"; lit "STYLES.CSV"]
             /\ PromptStyle.prompt
                  (StyleDatabase.get
                     (add_style three_styles (divider "STYLES.CSV")) x) = None)
  /\ StyleDatabase.apply_styles_to_prompt
       (add_style three_styles (divider "STYLES.CSV")) "dog"
       [lit "S1"; lit "STYLES.CSV"] = Raise TypeError
  /\ StyleDatabase.get_style_prompts three_styles [lit "S1"; lit "S3"]
     = map Some [lit "masterpiece"; lit "{prompt}, 4k"]
  /\ StyleDatabase.apply_styles_to_prompt three_styles "dog"
       [lit "S1"; lit "S3"] = Ok (lit "dog, masterpiece, 4k").
Proof.
  assert (exists x, In x [lit "S1"; lit "STYLES.CSV"]
             /\ PromptStyle.prompt
                  (StyleDatabase.get
                     (add_style three_styles (divider "STYLES.CSV")) x) = None)
    as Hdiv.
  { exists (lit "STYLES.CSV"). split; [right; left; reflexivity | reflexivity]. }
  split; [exact Hdiv|]. split.
  - destruct (apply_by_name_outcome
                (add_style three_styles (divider "STYLES.CSV")) "dog"
                [lit "S1"; lit "STYLES.CSV"]) as (H & _).
    exact (H Hdiv).
  - split; [reflexivity|].
    destruct (apply_by_name_outcome three_styles "dog" [lit "S1"; lit "S3"])
      as (_ & H & _).
    rewrite (H [lit "masterpiece"; lit "{prompt}, 4k"] eq_refl). reflexivity.
Defined.

(** X4.  Names the dictionary does not hold are no error: a selection made
    of unknown names alone returns the prompt stripped of the white space
    around it, not the prompt as it was passed. *)
Theorem apply_unknown_names (d : style_dict) (P : str) (names : list str) :
  names <> [] ->
  (forall x, In x names -> StyleDatabase.dict_get d x = None) ->
  StyleDatabase.apply_styles_to_prompt d P names = Ok (strip P)
  /\ StyleDatabase.apply_negative_styles_to_prompt d P names = Ok (strip P).
Proof.
  intros Hne Hunknown.
  assert (StyleDatabase.get_style_prompts d names
          = map Some (repeat [] (length names))) as E1.
  { clear Hne. unfold StyleDatabase.get_style_prompts, StyleDatabase.get.
    induction names as [|x names IH]; [reflexivity|].
    cbn [map length repeat]. rewrite (Hunknown x) by (left; reflexivity).
    rewrite IH by (intros y Hy; apply Hunknown; right; exact Hy). reflexivity. }
  assert (StyleDatabase.get_negative_style_prompts d names
          = map Some (repeat [] (length names))) as E2.
  { clear Hne E1.
    unfold StyleDatabase.get_negative_style_prompts, StyleDatabase.get.
    induction names as [|x names IH]; [reflexivity|].
    cbn [map length repeat]. rewrite (Hunknown x) by (left; reflexivity).
    rewrite IH by (intros y Hy; apply Hunknown; right; exact Hy). reflexivity. }
  unfold StyleDatabase.apply_styles_to_prompt,
    StyleDatabase.apply_negative_styles_to_prompt.
  rewrite E1, E2, apply_styles_call_some.
  destruct names as [|x names]; [congruence|].
  cbn [length]. rewrite apply_empty_templates. auto.
Qed.

Lemma apply_unknown_names_witness :
  [lit "nope"; lit "neither"] <> []
  /\ (forall x, In x [lit "nope"; lit "neither"] ->
        StyleDatabase.dict_get three_styles x = None)
  /\ StyleDatabase.apply_styles_to_prompt three_styles " a dog "
       [lit "nope"; lit "neither"] = Ok (lit "a dog").
Proof.
  assert (forall x, In x [lit "nope"; lit "neither"] ->
            StyleDatabase.dict_get three_styles x = None) as H.
  { intros x [<-|[<-|[]]]; reflexivity. }
  split; [discriminate|]. split; [exact H|].
  destruct (apply_unknown_names three_styles " a dog "
              [lit "nope"; lit "neither"]) as [E _];
    [discriminate | exact H |].
  rewrite E. reflexivity.
Defined.

(** ** Templates with placeholders *)

(** The placeholder begins with the only brace that opens it: an occurrence
    cannot start in front of another one and run into it. *)
Lemma placeholder_no_overlap (l r : str) :
  l <> [] -> absent placeholder l ->
  startswith (l ++ placeholder ++ r) placeholder = false.
Proof.
  intros Hne Habs.
  destruct (startswith (l ++ placeholder ++ r) placeholder) eqn:E;
    [exfalso | reflexivity].
  apply startswith_iff in E as [suf E].
  unfold placeholder, lit in E; cbn in E.
  destruct l as [|c1 l]; [congruence|].
  destruct l as [|c2 l]; [cbn in E; congruence|].
  destruct l as [|c3 l]; [cbn in E; congruence|].
  destruct l as [|c4 l]; [cbn in E; congruence|].
  destruct l as [|c5 l]; [cbn in E; congruence|].
  destruct l as [|c6 l]; [cbn in E; congruence|].
  destruct l as [|c7 l]; [cbn in E; congruence|].
  destruct l as [|c8 l]; [cbn in E; congruence|].
  cbn in E. injection E as -> -> -> -> -> -> -> -> _.
  apply (Habs 0). exists [], l. split; reflexivity.
Qed.

Lemma placeholder_first (l r : str) :
  absent placeholder l ->
  first_at placeholder (l ++ placeholder ++ r) (length l).
Proof.
  intros Habs. split; [exists l, r; auto|].
  induction l as [|c l IH]; intros j Hj; [simpl; lia|].
  destruct j as [|j].
  - apply occurs_at_0 in Hj.
    rewrite (placeholder_no_overlap (c :: l) r) in Hj;
      [discriminate | discriminate | exact Habs].
  - cbn [app] in Hj. apply occurs_at_cons in Hj.
    simpl. apply le_n_S. apply IH; [|exact Hj].
    intros i Hi. apply (Habs (S i)). apply occurs_at_cons. exact Hi.
Qed.

Lemma replace_rounds_absent (rounds : nat) (s old new : str) :
  absent old s -> replace_rounds rounds s old new = s.
Proof.
  intros H. destruct rounds; [reflexivity|]. simpl.
  rewrite (find_absent _ _ H). reflexivity.
Qed.

Lemma merge_single_placeholder (l r P : str) :
  str_in placeholder l = false -> str_in placeholder r = false ->
  merge_prompts (l ++ placeholder ++ r) P = l ++ P ++ r.
Proof.
  intros Hl Hr. apply str_in_false in Hl, Hr.
  pose proof (placeholder_first l r Hl) as Hfirst.
  rewrite merge_with_placeholder
    by (apply str_in_true; exists (length l); apply Hfirst).
  unfold replace.
  destruct (length (l ++ placeholder ++ r)) as [|n] eqn:L.
  { rewrite !length_app in L. simpl in L. lia. }
  cbn [replace_rounds].
  rewrite (find_first_at _ _ _ Hfirst), firstn_prefix, skipn_prefix.
  rewrite (replace_rounds_absent _ _ _ _ Hr). reflexivity.
Qed.

(** X5.  A template with one placeholder wraps the prompt as it is, white
    space included, and the structural match of lines 49-53 takes the
    wrapping off again: it returns [(True, P)] on the merged text. *)
Theorem match_after_merge_placeholder (l r P : str) :
  str_in placeholder l = false -> str_in placeholder r = false ->
  merge_prompts (l ++ placeholder ++ r) P = l ++ P ++ r
  /\ match_style_text (Some (l ++ placeholder ++ r))
       (merge_prompts (l ++ placeholder ++ r) P) = Ok (true, P).
Proof.
  intros Hl Hr. rewrite (merge_single_placeholder _ _ _ Hl Hr).
  split; [reflexivity|].
  apply match_placeholder_wrapped.
  - apply placeholder_first, str_in_false, Hl.
  - apply str_in_false, Hr.
Qed.

Lemma match_after_merge_placeholder_witness :
  str_in placeholder "photo of " = false
  /\ str_in placeholder ", 4k" = false
  /\ merge_prompts (lit "photo of " ++ placeholder ++ lit ", 4k") " a dog "
     = "photo of  a dog , 4k"
  /\ match_style_text (Some (lit "photo of " ++ placeholder ++ lit ", 4k"))
       (merge_prompts (lit "photo of " ++ placeholder ++ lit ", 4k") " a dog ")
     = Ok (true, lit " a dog ").
Proof.
  split; [reflexivity|]. split; [reflexivity|].
  destruct (match_after_merge_placeholder "photo of " ", 4k" " a dog "
              eq_refl eq_refl) as [E M].
  split; [rewrite E; reflexivity | exact M].
Defined.

(** X6.  For a trimmed template without placeholder, the structural match
    of lines 54-63 applied to the merged text matches and returns the
    stripped prompt: merging then matching is [strip]. *)
Theorem match_after_merge_strips (T P : str) :
  str_in placeholder T = false -> trimmed T ->
  match_style_text (Some T) (merge_prompts T P) = Ok (true, strip P).
Proof.
  intros HT TT.
  assert (merge_prompts T P = merge_prompts T (strip P)) as ->.
  { rewrite !(merge_without_placeholder _ _ HT), strip_idempotent.
    reflexivity. }
  apply match_merge_roundtrip; auto. apply strip_trimmed.
Qed.

Lemma match_after_merge_strips_witness :
  str_in placeholder "highres" = false
  /\ trimmed "highres"
  /\ match_style_text (Some (lit "highres")) (merge_prompts "highres" "  a dog ")
     = Ok (true, lit "a dog").
Proof.
  split; [reflexivity|]. split; [reflexivity|].
  rewrite (match_after_merge_strips "highres" "  a dog " eq_refl eq_refl).
  reflexivity.
Defined.

(** X7.  A template with two or more placeholders cannot be matched: the
    structural match raises [ValueError] on every candidate, because
    [split("{prompt}", 2)] yields three parts for the two names [left] and
    [right]. *)
Theorem match_two_placeholders_raises (l r prompt : str) :
  str_in placeholder l = false -> str_in placeholder r = true ->
  match_style_text (Some (l ++ placeholder ++ r)) prompt = Raise ValueError.
Proof.
  intros Hl Hr. apply str_in_false in Hl.
  pose proof (placeholder_first l r Hl) as Hfirst.
  unfold match_style_text.
  assert (str_in placeholder (l ++ placeholder ++ r) = true) as ->
    by (apply str_in_true; exists (length l); apply Hfirst).
  cbn [split].
  rewrite (find_first_at _ _ _ Hfirst), firstn_prefix, skipn_prefix.
  unfold str_in in Hr. destruct (find r placeholder); [|discriminate].
  reflexivity.
Qed.

Lemma match_two_placeholders_raises_witness :
  str_in placeholder "a " = false
  /\ str_in placeholder (lit " and " ++ placeholder) = true
  /\ match_style_text
       (Some (lit "a " ++ placeholder ++ lit " and " ++ placeholder))
       "a cat and cat" = Raise ValueError.
Proof.
  split; [reflexivity|]. split; [reflexivity|].
  apply (match_two_placeholders_raises "a " (lit " and " ++ placeholder)
           "a cat and cat"); reflexivity.
Defined.

(** ** What the search leaves behind *)

Lemma peel_rest (extract_text : option str -> str -> result (bool * str))
  (passes : nat) :
  forall (applicable : list PromptStyle.t) (extracted names : list str)
         (p n p' n' : str),
  peel_via extract_text passes applicable extracted p n
  = Some (Ok (names, p', n')) ->
  exists found rest,
    names = rev (extracted ++ map PromptStyle.name found)
    /\ Permutation applicable (found ++ rest)
    /\ forall style, In style rest ->
         extract_style_from_prompts_via extract_text style p' n'
         = Ok (false, p', n').
Proof.
  induction passes as [|k IH]; intros applicable extracted names p n p' n';
    [discriminate|].
  cbn [peel_via].
  destruct (first_match_via extract_text applicable p n)
    as [[[[st q] m]|]|e] eqn:E; [| |discriminate].
  - destruct (pass_removes_one _ _ _ _ _ _ _ E) as (l' & -> & P & _).
    intros H. apply IH in H as (found & rest & -> & P' & F).
    exists (st :: found), rest. repeat split.
    + simpl. rewrite <- app_assoc. reflexivity.
    + rewrite P. simpl. constructor. exact P'.
    + exact F.
  - intros [= <- <- <-]. exists [], applicable. simpl.
    rewrite app_nil_r. repeat split; auto.
    apply (first_match_none _ _ _ _ E).
Qed.

(** X8.  When the search returns, it has reached a fixed point: no style
    of the set whose name is not in the returned list matches the returned
    texts.  This holds for the loop of lines 191-215 over any text-level
    extractor, the program's own included. *)
Theorem search_returns_fixed_point
  (extract_text : option str -> str -> result (bool * str))
  (styles : style_dict) (p n p' n' : str) (names : list str) :
  extract_styles_via extract_text styles p n = Some (Ok (names, p', n')) ->
  forall style,
    In style (values styles) -> ~ In (PromptStyle.name style) names ->
    extract_style_from_prompts_via extract_text style p' n'
    = Ok (false, p', n').
Proof.
  intros H style Hin Hname.
  apply peel_rest in H as (found & rest & -> & P & F).
  apply F. apply (Permutation_in _ P) in Hin.
  apply in_app_or in Hin as [Hf|Hr]; [|exact Hr].
  destruct Hname. apply -> in_rev. simpl. apply in_map, Hf.
Qed.

Lemma search_returns_fixed_point_witness :
  extract_styles_via match_style_text three_styles "dog, masterpiece" "blurry"
  = Some (Ok ([lit "S1"], lit "dog", lit ""))
  /\ In style_S2 (values three_styles)
  /\ ~ In (PromptStyle.name style_S2) [lit "S1"]
  /\ extract_style_from_prompts_via match_style_text style_S2 "dog" ""
     = Ok (false, lit "dog", lit "").
Proof.
  assert (~ In (PromptStyle.name style_S2) [lit "S1"]) as Hname.
  { intros [H|[]]. discriminate H. }
  split; [reflexivity|]. split; [right; left; reflexivity|].
  split; [exact Hname|].
  apply (search_returns_fixed_point match_style_text three_styles
           "dog, masterpiece" "blurry" "dog" "" [lit "S1"]).
  - reflexivity.
  - right; left; reflexivity.
  - exact Hname.
Defined.

(** X9.  All the search of the program can do: with every style of the set
    empty on both sides it returns no name and the two texts as they were
    passed; with any other set it raises, [TypeError] or [AttributeError]
    according to the iteration order of the first set display. *)
Theorem extract_styles_from_prompt_outcome
  (set_order : pyval -> pyval -> pyval -> order3)
  (re_sub : str -> str -> str -> Z -> str)
  (styles : style_dict) (p n : str) :
  extract_styles_from_prompt set_order re_sub styles p n
  = Some (if forallb both_empty (values styles) then Ok ([], p, n)
          else Raise (if binds_pattern
                           (set_order (PStr "a_before_vowel")
                              (PPattern "([Aa])\s+([AEIOUaeiou])")
                              (PStr "$1n $2"))
                      then TypeError else AttributeError)).
Proof. apply extract_styles_program. Qed.

(** ** Loading *)

Lemma dict_get_set_same (d : style_dict) (k : str) (v : PromptStyle.t) :
  StyleDatabase.dict_get (dict_set d k v) k = Some v.
Proof.
  induction d as [|[k0 v0] d IH]; simpl.
  - rewrite str_eqb_refl. reflexivity.
  - destruct (str_eqb k0 k) eqn:E; simpl.
    + rewrite str_eqb_refl. reflexivity.
    + rewrite E. exact IH.
Qed.

Lemma dict_get_set_other (d : style_dict) (k k' : str) (v : PromptStyle.t) :
  str_eqb k k' = false ->
  StyleDatabase.dict_get (dict_set d k v) k' = StyleDatabase.dict_get d k'.
Proof.
  intros Hk. induction d as [|[k0 v0] d IH]; simpl.
  - rewrite Hk. reflexivity.
  - destruct (str_eqb k0 k) eqn:E; simpl.
    + apply str_eqb_eq in E; subst k0. rewrite Hk. reflexivity.
    + destruct (str_eqb k0 k'); [reflexivity | exact IH].
Qed.

(** A row acts on any dictionary as it does on the empty one. *)
Lemma load_row_shape (path : str) (d : style_dict) (row : csv_row) :
  StyleDatabase.load_row path d row
  = match StyleDatabase.load_row path [] row with
    | ([], e) => (d, e)
    | ((k, v) :: _, e) => (dict_set d k v, e)
    end.
Proof.
  unfold StyleDatabase.load_row. destruct row as [|f row]; [reflexivity|].
  destruct (StyleDatabase.row_get (f :: row) "name") as [[nm|]|];
    try reflexivity.
  destruct (startswith nm "#"); [reflexivity|].
  destruct (match StyleDatabase.row_get (f :: row) "prompt" with
            | Some v => Some v
            | None => StyleDatabase.row_get (f :: row) "text"
            end); reflexivity.
Qed.

Lemma stored_by_shape (path : str) (row : csv_row) :
  stored_by path row = []
  \/ exists v, stored_by path row = [(PromptStyle.name v, v)]
               /\ PromptStyle.path v = Some path
               /\ snd (StyleDatabase.load_row path [] row) = None.
Proof.
  unfold stored_by, StyleDatabase.load_row. destruct row as [|f row]; [auto|].
  destruct (StyleDatabase.row_get (f :: row) "name") as [[nm|]|]; auto.
  destruct (startswith nm "#"); auto.
  destruct (match StyleDatabase.row_get (f :: row) "prompt" with
            | Some v => Some v
            | None => StyleDatabase.row_get (f :: row) "text"
            end); auto.
  right. cbn [fst snd dict_set].
  match goal with |- exists v, [(_, ?x)] = _ /\ _ => exists x end.
  split; [reflexivity|]. split; reflexivity.
Qed.

Lemma load_row_cases (path : str) (d : style_dict) (row : csv_row) :
  (stored_by path row = []
   /\ fst (StyleDatabase.load_row path d row) = d)
  \/ exists v, stored_by path row = [(PromptStyle.name v, v)]
               /\ PromptStyle.path v = Some path
               /\ StyleDatabase.load_row path d row
                  = (dict_set d (PromptStyle.name v) v, None).
Proof.
  rewrite (load_row_shape path d row).
  destruct (stored_by_shape path row) as [E|(v & E & Hp & He)];
    unfold stored_by in E.
  - left. split; [exact E|].
    destruct (StyleDatabase.load_row path [] row) as [s e]. simpl in E.
    subst s. reflexivity.
  - right. exists v. split; [exact E|]. split; [exact Hp|].
    destruct (StyleDatabase.load_row path [] row) as [s e]. simpl in E, He.
    subst s e. reflexivity.
Qed.

Lemma load_row_wf (path : str) (d : style_dict) (row : csv_row) :
  dict_wf d -> dict_wf (fst (StyleDatabase.load_row path d row)).
Proof.
  intros H. destruct (load_row_cases path d row) as [[_ ->]|(v & _ & _ & ->)];
    [exact H|].
  apply dict_set_wf; auto.
Qed.

Lemma load_rows_wf (path : str) (rows : list csv_row) :
  forall d, dict_wf d -> dict_wf (fst (StyleDatabase.load_rows path d rows)).
Proof.
  induction rows as [|row rows IH]; intros d H; [exact H|].
  cbn [StyleDatabase.load_rows].
  pose proof (load_row_wf path d row H) as Hrow.
  destruct (StyleDatabase.load_row path d row) as [d' [e|]]; [exact Hrow|].
  apply IH, Hrow.
Qed.

Lemma load_rows_app (path : str) (rows1 rows2 : list csv_row) :
  forall d,
  StyleDatabase.load_rows path d (rows1 ++ rows2)
  = match StyleDatabase.load_rows path d rows1 with
    | (d1, None) => StyleDatabase.load_rows path d1 rows2
    | (d1, Some e) => (d1, Some e)
    end.
Proof.
  induction rows1 as [|row rows1 IH]; intros d; [reflexivity|].
  cbn [app StyleDatabase.load_rows].
  destruct (StyleDatabase.load_row path d row) as [d' [e|]]; [reflexivity|].
  apply IH.
Qed.

Lemma load_rows_untouched (path : str) (rows : list csv_row) (k : str) :
  (forall row, In row rows ->
     StyleDatabase.dict_get (stored_by path row) k = None) ->
  forall d,
  StyleDatabase.dict_get (fst (StyleDatabase.load_rows path d rows)) k
  = StyleDatabase.dict_get d k.
Proof.
  induction rows as [|row rows IH]; intros Hrows d; [reflexivity|].
  cbn [StyleDatabase.load_rows].
  pose proof (Hrows row (or_introl eq_refl)) as Hrow.
  assert (forall r, In r rows ->
            StyleDatabase.dict_get (stored_by path r) k = None) as Hrest
    by (intros r Hr; apply Hrows; right; exact Hr).
  destruct (load_row_cases path d row) as [[_ E]|(v & Es & _ & E)].
  - destruct (StyleDatabase.load_row path d row) as [d' [e|]];
      simpl in E; subst d'; [reflexivity|].
    apply IH, Hrest.
  - rewrite E. rewrite IH by exact Hrest.
    apply dict_get_set_other.
    rewrite Es in Hrow. simpl in Hrow.
    destruct (str_eqb (PromptStyle.name v) k); [discriminate | reflexivity].
Qed.

(** X10.  Rows that define no record under a name leave the record under
    that name as it was, whether the loading ends normally or by an
    exception: loading never removes a record and alters only the names it
    defines. *)
Theorem load_keeps_other_names (path : str) (d : style_dict)
  (rows : list csv_row) (k : str) :
  (forall row, In row rows ->
     StyleDatabase.dict_get (stored_by path row) k = None) ->
  StyleDatabase.dict_get (fst (StyleDatabase.load_rows path d rows)) k
  = StyleDatabase.dict_get d k.
Proof. intros H. apply load_rows_untouched, H. Qed.

(** X11.  When a file defines a name several times, the last definition
    wins: after a loading that ends normally, the record under a name is
    the one of the last row that defines it. *)
Theorem load_last_row_wins (path : str) (d d' : style_dict)
  (rows1 rows2 : list csv_row) (row : csv_row) (k : str) (v : PromptStyle.t) :
  StyleDatabase.load_rows path d (rows1 ++ row :: rows2) = (d', None) ->
  StyleDatabase.dict_get (stored_by path row) k = Some v ->
  (forall r, In r rows2 -> StyleDatabase.dict_get (stored_by path r) k = None) ->
  StyleDatabase.dict_get d' k = Some v.
Proof.
  intros Hload Hrow Hrest.
  rewrite load_rows_app in Hload.
  destruct (StyleDatabase.load_rows path d rows1) as [d1 [e|]];
    [discriminate|].
  cbn [StyleDatabase.load_rows] in Hload.
  destruct (load_row_cases path d1 row) as [[Es _]|(v0 & Es & _ & E)].
  - rewrite Es in Hrow. discriminate.
  - rewrite E in Hload. rewrite Es in Hrow. simpl in Hrow.
    destruct (str_eqb (PromptStyle.name v0) k) eqn:Ek; [|discriminate].
    injection Hrow as ->. apply str_eqb_eq in Ek. subst k.
    pose proof (load_rows_untouched path rows2 (PromptStyle.name v) Hrest
                  (dict_set d1 (PromptStyle.name v) v)) as U.
    rewrite Hload in U. simpl in U. rewrite U. apply dict_get_set_same.
Qed.

Lemma load_keeps_other_names_witness :
  (forall row, In row [row_comment; row_short] ->
     StyleDatabase.dict_get (stored_by "styles.csv" row) "cat" = None)
  /\ StyleDatabase.dict_get
       (fst (StyleDatabase.load_rows "styles.csv"
               (fst (StyleDatabase.load_row "old.csv" [] row_cat))
               [row_comment; row_short])) "cat"
     = Some (PromptStyle.make "cat" (Some (lit "a cat")) (Some (lit "dog"))
               (Some (lit "old.csv"))).
Proof.
  assert (forall row, In row [row_comment; row_short] ->
            StyleDatabase.dict_get (stored_by "styles.csv" row) "cat" = None)
    as H.
  { intros row [<-|[<-|[]]]; reflexivity. }
  split; [exact H|].
  rewrite (load_keeps_other_names "styles.csv"
             (fst (StyleDatabase.load_row "old.csv" [] row_cat))
             [row_comment; row_short] "cat" H).
  reflexivity.
Defined.

Lemma load_last_row_wins_witness :
  StyleDatabase.load_rows "styles.csv" []
    ([row_cat] ++ row_cat_legacy :: [row_comment])
  = ([(lit "cat",
       PromptStyle.make "cat" (Some (lit "kitten")) (Some (lit ""))
         (Some (lit "styles.csv")))], None)
  /\ StyleDatabase.dict_get (stored_by "styles.csv" row_cat_legacy) "cat"
     = Some (PromptStyle.make "cat" (Some (lit "kitten")) (Some (lit ""))
               (Some (lit "styles.csv")))
  /\ (forall r, In r [row_comment] ->
        StyleDatabase.dict_get (stored_by "styles.csv" r) "cat" = None)
  /\ StyleDatabase.dict_get
       [(lit "cat",
         PromptStyle.make "cat" (Some (lit "kitten")) (Some (lit ""))
           (Some (lit "styles.csv")))] "cat"
     = Some (PromptStyle.make "cat" (Some (lit "kitten")) (Some (lit ""))
               (Some (lit "styles.csv"))).
Proof.
  assert (forall r, In r [row_comment] ->
            StyleDatabase.dict_get (stored_by "styles.csv" r) "cat" = None)
    as H.
  { intros r [<-|[]]; reflexivity. }
  split; [reflexivity|]. split; [reflexivity|]. split; [exact H|].
  apply (load_last_row_wins "styles.csv" [] _ [row_cat] [row_comment]
           row_cat_legacy "cat"); [reflexivity | reflexivity | exact H].
Defined.

(** X12.  A row that stops behind the name loads a record without
    templates, and selecting that record afterwards makes the merge by name
    raise [TypeError]. *)
Theorem short_row_breaks_apply (path : str) (d : style_dict) (row : csv_row)
  (nm P : str) (names : list str) :
  StyleDatabase.row_get row "name" = Some (Some nm) ->
  startswith nm "#" = false ->
  StyleDatabase.row_get row "prompt" = Some None ->
  In nm names ->
  StyleDatabase.apply_styles_to_prompt
    (fst (StyleDatabase.load_row path d row)) P names = Raise TypeError.
Proof.
  intros Hname Hcomment Hprompt Hin.
  unfold StyleDatabase.load_row. destruct row as [|f row]; [discriminate|].
  rewrite Hname, Hcomment, Hprompt. cbn [fst].
  unfold StyleDatabase.apply_styles_to_prompt.
  apply apply_styles_call_none.
  unfold StyleDatabase.get_style_prompts.
  apply in_map_iff. exists nm. split; [|exact Hin].
  unfold StyleDatabase.get. rewrite dict_get_set_same. reflexivity.
Qed.

Lemma short_row_breaks_apply_witness :
  StyleDatabase.row_get row_short "name" = Some (Some (lit "bare"))
  /\ startswith "bare" "#" = false
  /\ StyleDatabase.row_get row_short "prompt" = Some None
  /\ In (lit "bare") [lit "S1"; lit "bare"]
  /\ StyleDatabase.apply_styles_to_prompt
       (fst (StyleDatabase.load_row "styles.csv" three_styles row_short))
       "dog" [lit "S1"; lit "bare"] = Raise TypeError.
Proof.
  split; [reflexivity|]. split; [reflexivity|]. split; [reflexivity|].
  split; [right; left; reflexivity|].
  apply (short_row_breaks_apply "styles.csv" three_styles row_short
           "bare" "dog" [lit "S1"; lit "bare"]);
    [reflexivity | reflexivity | reflexivity | right; left; reflexivity].
Defined.

Section ReloadProperties.
Variable read_csv : str -> list csv_row * bool.
Variable path_split : str -> str * str.
Variable path_join : str -> str -> str.
Variable listdir : str -> option (list str).
Variable fnmatch : str -> str -> bool.
Variable path_exists : str -> bool.
Variable upper : str -> str.

Lemma load_from_csv_wf (d : style_dict) (path : str) :
  dict_wf d -> dict_wf (fst (StyleDatabase.load_from_csv read_csv d path)).
Proof.
  intros H. unfold StyleDatabase.load_from_csv.
  destruct (read_csv path) as [rows failed].
  pose proof (load_rows_wf path rows d H) as W.
  destruct (StyleDatabase.load_rows path d rows) as [d' [e|]]; exact W.
Qed.

Lemma load_matching_wf (path fileglob : str) (files : list str) :
  forall d, dict_wf d ->
  dict_wf (fst (StyleDatabase.load_matching read_csv path_join fnmatch upper
                  d path fileglob files)).
Proof.
  induction files as [|file files IH]; intros d H; [exact H|].
  cbn [StyleDatabase.load_matching].
  destruct (fnmatch file fileglob); [|apply IH, H].
  assert (dict_wf (dict_set d (upper file) (divider (upper file)))) as Hd
    by (apply dict_set_wf; [reflexivity | exact H]).
  pose proof (load_from_csv_wf _ (path_join path file) Hd) as W.
  destruct (StyleDatabase.load_from_csv read_csv
              (dict_set d (upper file) (divider (upper file)))
              (path_join path file)) as [d' [e|]]; [exact W|].
  apply IH, W.
Qed.

(** X13.  Whatever the directory and the files hold, and whether loading
    ends normally or by an exception, the dictionary [reload] leaves has
    every record stored under its own name, each name once: the
    well-formedness the extraction search relies on. *)
Theorem reload_wf (self_path : str) :
  dict_wf (fst (StyleDatabase.reload read_csv path_split path_join listdir
                  fnmatch path_exists upper self_path)).
Proof.
  unfold StyleDatabase.reload.
  destruct (path_split self_path) as [path filename].
  destruct (str_in "*" filename).
  - destruct (listdir path) as [files|]; [|exact dict_empty_wf].
    apply load_matching_wf, dict_empty_wf.
  - destruct (negb (path_exists self_path)); [exact dict_empty_wf|].
    apply load_from_csv_wf, dict_empty_wf.
Qed.
End ReloadProperties.

(** ** Saving *)

Lemma dict_set_at (a b : style_dict) (k : str) (v v' : PromptStyle.t) :
  ~ In k (map fst a) ->
  dict_set (a ++ (k, v) :: b) k v' = a ++ (k, v') :: b.
Proof.
  induction a as [|[k0 v0] a IH]; intros H; simpl.
  - rewrite str_eqb_refl. reflexivity.
  - destruct (str_eqb k0 k) eqn:E.
    + apply str_eqb_eq in E. subst k0. destruct H. left; reflexivity.
    + rewrite IH; [reflexivity|]. intros Hin. apply H. right; exact Hin.
Qed.

Lemma fix_paths_fold (default_path : str) (post pre : style_dict) :
  dict_wf (pre ++ post) ->
  fold_left
    (fun d style =>
       if falsy (PromptStyle.path style)
       then dict_set d (PromptStyle.name style)
              (StyleDatabase.replace_path style default_path)
       else d)
    (values post)
    (map (fun kv =>
            (fst kv,
             if falsy (PromptStyle.path (snd kv))
             then StyleDatabase.replace_path (snd kv) default_path
             else snd kv)) pre ++ post)
  = map (fun kv =>
           (fst kv,
            if falsy (PromptStyle.path (snd kv))
            then StyleDatabase.replace_path (snd kv) default_path
            else snd kv)) (pre ++ post).
Proof.
  revert pre; induction post as [|[k v] post IH]; intros pre Hwf.
  - simpl. rewrite !app_nil_r. reflexivity.
  - cbn [values map snd fold_left].
    assert (PromptStyle.name v = k /\ ~ In k (map fst pre)) as [Hk Hnot].
    { destruct Hwf as [Hnd Hall]. split.
      - rewrite Forall_forall in Hall.
        apply (Hall (k, v)). apply in_or_app. right; left; reflexivity.
      - rewrite map_app in Hnd. cbn [map fst] in Hnd.
        apply NoDup_remove_2 in Hnd. intros Hin. apply Hnd.
        apply in_or_app. left; exact Hin. }
    replace (pre ++ (k, v) :: post) with ((pre ++ [(k, v)]) ++ post) in *
      by (rewrite <- app_assoc; reflexivity).
    rewrite <- (IH (pre ++ [(k, v)]) Hwf). f_equal.
    rewrite map_app. cbn [map fst snd]. rewrite <- app_assoc. cbn [app].
    destruct (falsy (PromptStyle.path v)); [|reflexivity].
    rewrite Hk. apply dict_set_at.
    rewrite map_map. cbn [fst]. exact Hnot.
Qed.

Lemma fix_paths_map (default_path : str) (d : style_dict) :
  dict_wf d ->
  StyleDatabase.fix_paths default_path d
  = map (fun kv =>
           (fst kv,
            if falsy (PromptStyle.path (snd kv))
            then StyleDatabase.replace_path (snd kv) default_path
            else snd kv)) d.
Proof.
  intros H. unfold StyleDatabase.fix_paths.
  apply (fix_paths_fold default_path d [] H).
Qed.


(** X14.  The first step of [save_styles], on a dictionary that holds every
    record under its own name: the keys and their order stay, and so does
    every record, but for a missing or empty path, which becomes the
    default path. *)
Theorem save_fills_missing_paths (default_path : str) (d : style_dict) :
  dict_wf d ->
  StyleDatabase.fix_paths default_path d
  = map (fun kv =>
           (fst kv,
            if falsy (PromptStyle.path (snd kv))
            then StyleDatabase.replace_path (snd kv) default_path
            else snd kv)) d.
Proof. apply fix_paths_map. Qed.

Lemma save_fills_missing_paths_witness :
  dict_wf (add_style three_styles no_style)
  /\ StyleDatabase.fix_paths "styles.csv" (add_style three_styles no_style)
     = add_style three_styles
         (PromptStyle.make "None" (Some (lit "")) (Some (lit ""))
            (Some (lit "styles.csv"))).
Proof.
  assert (dict_wf (add_style three_styles no_style)) as H
    by apply add_style_wf, three_styles_wf.
  split; [exact H|].
  rewrite (save_fills_missing_paths "styles.csv" _ H). reflexivity.
Defined.

(** On a dictionary that holds a record under another key than its name,
    the same step adds an entry and leaves the record without path where it
    was. *)
Example fix_paths_foreign_key :
  StyleDatabase.fix_paths "styles.csv"
    [(lit "key", PromptStyle.make "cat" (Some (lit "a cat")) (Some (lit "")) None)]
  = [(lit "key", PromptStyle.make "cat" (Some (lit "a cat")) (Some (lit "")) None);
     (lit "cat",
      PromptStyle.make "cat" (Some (lit "a cat")) (Some (lit ""))
        (Some (lit "styles.csv")))].
Proof. reflexivity. Qed.



Lemma style_paths_default (default_path : str) (d : style_dict) :
  In default_path (StyleDatabase.style_paths default_path d).
Proof. apply nodup_In. left; reflexivity. Qed.





Section SaveProperties.
Variable path_tail : str -> str.


End SaveProperties.



(** A style named after one of the files is not written back. *)
Example save_drops_file_name :
  snd (StyleDatabase.save_styles no_tail "styles.csv"
         [(lit "# Styles.CSV ",
           PromptStyle.make "# Styles.CSV " (Some (lit "x")) (Some (lit "")) None);
          (lit "cat",
           PromptStyle.make "cat" (Some (lit "a cat")) (Some (lit "")) None)])
  = [(lit "styles.csv", [(lit "cat", Some (lit "a cat"), Some (lit ""))])].
Proof. reflexivity. Qed.

(** ** The default file *)

Lemma hd_split_all (s sep : str) :
  hd [] (split_all s sep)
  = match find s sep with
    | Some i => firstn i s
    | None => s
    end.
Proof.
  unfold split_all. destruct s as [|c s].
  - simpl. destruct (startswith [] sep); reflexivity.
  - cbn [length split]. destruct (find (c :: s) sep); reflexivity.
Qed.

Lemma absent_before_first (sub s : str) (i : nat) :
  sub <> [] -> first_at sub s i -> absent sub (firstn i s).
Proof.
  intros Hsub [_ Hmin] j (pre & suf & E & L).
  assert (occurs_at sub s j) as Hocc.
  { exists pre, (suf ++ skipn i s). split; [|exact L].
    rewrite <- (firstn_skipn i s) at 1. rewrite E, <- !app_assoc. reflexivity. }
  apply Hmin in Hocc.
  assert (length (firstn i s) <= i) as Hlen by apply firstn_le_length.
  rewrite E, !length_app in Hlen.
  destruct sub; [congruence | simpl in Hlen; lia].
Qed.

Lemma str_in_char (c : ascii) (s : str) :
  str_in [c] s = existsb (fun x => Ascii.eqb x c) s.
Proof.
  unfold str_in. induction s as [|x s IH]; [reflexivity|].
  cbn [find startswith existsb]. rewrite andb_true_r.
  destruct (Ascii.eqb x c); [reflexivity|].
  cbn [orb]. rewrite <- IH. destruct (find s [c]); reflexivity.
Qed.

Lemma str_in_char_app (c : ascii) (a b : str) :
  str_in [c] (a ++ b) = str_in [c] a || str_in [c] b.
Proof. rewrite !str_in_char. apply existsb_app. Qed.

Lemma before_star_clean (file : str) :
  str_in "*" (hd [] (split_all file "*")) = false.
Proof.
  rewrite hd_split_all. destruct (find file "*") as [i|] eqn:F.
  - apply str_in_false, absent_before_first; [discriminate|].
    apply find_Some, F.
  - apply str_in_false, find_None, F.
Qed.

(** X17.  The default file name of [__init__]: it never holds a [*], it
    always ends with [.csv], and for a file name without [*] it is that
    name with [.csv] appended, so that [styles.csv] gives
    [styles.csv.csv]. *)
Theorem default_file_shape (file : str) :
  str_in "*" (StyleDatabase.default_file file) = false
  /\ endswith (StyleDatabase.default_file file) ".csv" = true
  /\ (str_in "*" file = false -> file <> [] ->
      StyleDatabase.default_file file = file ++ lit ".csv").
Proof.
  unfold StyleDatabase.default_file.
  set (before := hd [] (split_all file "*")).
  split; [|split].
  - destruct (str_eqb (before ++ lit ".csv") ".csv"); [reflexivity|].
    change (lit "*") with ["*"%char].
    rewrite str_in_char_app.
    change ["*"%char] with (lit "*").
    unfold before. rewrite before_star_clean. reflexivity.
  - destruct (str_eqb (before ++ lit ".csv") ".csv"); [reflexivity|].
    apply endswith_app.
  - intros Hstar Hne.
    assert (before = file) as ->.
    { unfold before. rewrite hd_split_all.
      unfold str_in in Hstar. destruct (find file "*"); [discriminate|].
      reflexivity. }
    destruct (str_eqb (file ++ lit ".csv") ".csv") eqn:E; [|reflexivity].
    apply str_eqb_eq in E. apply (f_equal (@length ascii)) in E.
    rewrite length_app in E. destruct file; [congruence | simpl in E; lia].
Qed.

Lemma default_file_shape_witness :
  str_in "*" "styles.csv" = false
  /\ lit "styles.csv" <> []
  /\ StyleDatabase.default_file "styles.csv" = "styles.csv.csv".
Proof.
  split; [reflexivity|]. split; [discriminate|].
  destruct (default_file_shape "styles.csv") as (_ & _ & H).
  rewrite H; [reflexivity | reflexivity | discriminate].
Defined.

Example default_file_wildcard :
  StyleDatabase.default_file "styles*.csv" = "styles.csv"
  /\ StyleDatabase.default_file "*.csv" = "styles.csv"
  /\ StyleDatabase.default_file "my*styles*.csv" = "my.csv".
Proof. repeat split. Qed.

Example lower_and_strip_chars :
  lower "StYles.CSV" = "styles.csv"
  /\ strip_chars " # x# " "# " = "x"
  /\ strip_chars "#" "# " = "".
Proof. repeat split. Qed.
